(** * sentry.tasks.post_process: the post-processing pipeline

    A shallow embedding of [src/sentry/tasks/post_process.py] and the
    properties of its stages: dedup guard, metrics, snoozes, owner
    assignment, rule callbacks, service-hook fan-out, resource-change
    notifications and plugin fan-out.

    The Python code threads its effects through ambient objects (a
    redis cluster, the Django cache, the ORM, loggers, Celery queues).
    Here they are one explicit [World], and every function of the
    module is a computation in a state-and-exception monad over it. *)

From Stdlib Require Import ZArith QArith List Ascii String.
From stdpp Require Import base option list gmap strings pretty.

Local Open Scope Z_scope.

(** ** Data model *)

(** Exceptions that cross function boundaries in the module. *)
Inductive Exn : Type :=
| ConnectionError                (* redis client: backend unreachable *)
| DoesNotExist (model : string)  (* ORM lookup without a row *)
| KeyError (key : string)        (* registry lookup without an entry *)
| TypeError                      (* iterating over a non-iterable *)
| PluginError (msg : string)     (* sentry.exceptions.PluginError *)
| OtherError (name : string).    (* anything else a callback raises *)

Inductive GroupStatus : Type := UNRESOLVED | RESOLVED | IGNORED.

Record Group : Type := {
  g_id : Z;
  g_project_id : Z;
  g_platform : option string;
  g_status : GroupStatus
}.

Record Project : Type := {
  p_id : Z;
  p_organization_id : Z
}.

Record Organization : Type := { org_id : Z }.

Record GroupSnooze : Type := {
  sn_until : option Z;
  sn_count : option Z
}.

Inductive Owner : Type := OwnerUser (id : Z) | OwnerTeam (id : Z).

Record ServiceHook : Type := {
  hook_id : Z;
  hook_organization_id : Z;
  hook_project_ids : list Z;
  hook_events : list string
}.

Definition EventData : Type := list (string * string).

Record Event : Type := {
  ev_project_id : Z;
  ev_event_id : string;
  ev_group_id : Z;
  ev_size : Z;
  ev_type : string;            (* event.get_event_type() *)
  ev_data : EventData;
  ev_group : Group;            (* event.group, possibly stale on entry *)
  ev_project : Project         (* event.project, possibly stale on entry *)
}.

Definition with_data (d : EventData) (e : Event) : Event :=
  {| ev_project_id := ev_project_id e; ev_event_id := ev_event_id e;
     ev_group_id := ev_group_id e; ev_size := ev_size e; ev_type := ev_type e;
     ev_data := d; ev_group := ev_group e; ev_project := ev_project e |}.

(** [event.group, _ = ...; event.group_id = event.group.id] *)
Definition with_group (g : Group) (e : Event) : Event :=
  {| ev_project_id := ev_project_id e; ev_event_id := ev_event_id e;
     ev_group_id := g_id g; ev_size := ev_size e; ev_type := ev_type e;
     ev_data := ev_data e; ev_group := g; ev_project := ev_project e |}.

Definition with_project (p : Project) (e : Event) : Event :=
  {| ev_project_id := ev_project_id e; ev_event_id := ev_event_id e;
     ev_group_id := ev_group_id e; ev_size := ev_size e; ev_type := ev_type e;
     ev_data := ev_data e; ev_group := ev_group e; ev_project := p |}.

(** A rule callback and a plugin are opaque callables.  What the model
    sees of one is that it was invoked and whether it returned or
    raised. *)
Record Callback : Type := {
  cb_name : string;
  cb_raises : option Exn
}.

Definition Futures : Type := list Z.

Record Plugin : Type := {
  slug : string;
  pl_enabled : Z -> bool;          (* plugin.is_enabled(project) *)
  pl_post_process : option Exn     (* what plugin.post_process raises *)
}.

(** Values the Django cache holds for this module. *)
Inductive CacheVal : Type :=
| CInt (n : Z)
| CHooks (hooks : list (Z * list string)).

Inductive LogLevel : Type := INFO | WARNING | ERROR.

Inductive Sender : Type := SenderError | SenderGroup.

Inductive InstanceId : Type := IdEvent (event_id : string) | IdGroup (group_id : Z).

Inductive Task : Type :=
| ProcessServiceHook (servicehook_id : Z) (project_id : Z) (event_id : string)
| ProcessResourceChange (action : string) (sender : Sender)
                        (instance_id : InstanceId) (instance : option string).

Inductive Call : Type :=
| CallGetAutoassignOwner (project_id : Z)
| CallAssign (group_id : Z) (owner : Owner)
| CallRuleApply (event_id : string)
| CallCallback (name : string) (event_id : string) (futures : Futures)
| CallPostProcess (plugin_slug : string) (event_id : string) (group_id : Z)
                  (is_new is_regresion is_sample : bool).

(** Everything the module does to the outside, in program order. *)
Inductive Effect : Type :=
| ELog (level : LogLevel) (msg : string) (extra : list (string * string))
| EIncr (name : string) (tags : list (string * string))
| ETiming (name : string) (value : Z) (tags : list (string * string))
| ECacheGet (key : string)
| ECacheSet (key : string) (v : CacheVal) (timeout : Z)
| ECall (c : Call)
| EDelay (t : Task)
| ESignal (project_id group_id : Z) (event_id : string) (primary_hash : option string).

(** The persistent store behind the ORM. *)
Record Store : Type := {
  db_groups : gmap Z Group;
  db_redirects : gmap Z Z;             (* GroupRedirect: previous id -> id *)
  db_projects : gmap Z Project;
  db_organizations : gmap Z Organization;
  db_snoozes : gmap Z GroupSnooze;     (* at most one per group id *)
  db_assignees : gmap Z Owner;         (* group.assignee_set *)
  db_hooks : list ServiceHook
}.

(** The clock is read in whole seconds; a redis or cache entry is kept
    with the deadline after which it has expired. *)
Record World : Type := {
  store : Store;
  redis_up : bool;                     (* is the lock cluster reachable *)
  redis : gmap string (string * Z);
  cache : gmap string (CacheVal * Z);
  now : Z;
  scope_tags : gmap string Z;          (* sdk scope tags *)
  rng_pos : nat;                       (* draws of random.random() so far *)
  trace : list Effect
}.

Definition emit (e : Effect) (w : World) : World :=
  {| store := store w; redis_up := redis_up w; redis := redis w;
     cache := cache w; now := now w; scope_tags := scope_tags w;
     rng_pos := rng_pos w; trace := trace w ++ [e] |}.

Definition set_store (s : Store) (w : World) : World :=
  {| store := s; redis_up := redis_up w; redis := redis w;
     cache := cache w; now := now w; scope_tags := scope_tags w;
     rng_pos := rng_pos w; trace := trace w |}.

Definition set_redis (r : gmap string (string * Z)) (w : World) : World :=
  {| store := store w; redis_up := redis_up w; redis := r;
     cache := cache w; now := now w; scope_tags := scope_tags w;
     rng_pos := rng_pos w; trace := trace w |}.

Definition set_cache (c : gmap string (CacheVal * Z)) (w : World) : World :=
  {| store := store w; redis_up := redis_up w; redis := redis w;
     cache := c; now := now w; scope_tags := scope_tags w;
     rng_pos := rng_pos w; trace := trace w |}.

Definition set_scope_tags (t : gmap string Z) (w : World) : World :=
  {| store := store w; redis_up := redis_up w; redis := redis w;
     cache := cache w; now := now w; scope_tags := t;
     rng_pos := rng_pos w; trace := trace w |}.

Definition set_rng_pos (n : nat) (w : World) : World :=
  {| store := store w; redis_up := redis_up w; redis := redis w;
     cache := cache w; now := now w; scope_tags := scope_tags w;
     rng_pos := n; trace := trace w |}.

Definition set_snoozes (m : gmap Z GroupSnooze) (s : Store) : Store :=
  {| db_groups := db_groups s; db_redirects := db_redirects s;
     db_projects := db_projects s; db_organizations := db_organizations s;
     db_snoozes := m; db_assignees := db_assignees s; db_hooks := db_hooks s |}.

Definition set_groups (m : gmap Z Group) (s : Store) : Store :=
  {| db_groups := m; db_redirects := db_redirects s;
     db_projects := db_projects s; db_organizations := db_organizations s;
     db_snoozes := db_snoozes s; db_assignees := db_assignees s;
     db_hooks := db_hooks s |}.

Definition set_assignees (m : gmap Z Owner) (s : Store) : Store :=
  {| db_groups := db_groups s; db_redirects := db_redirects s;
     db_projects := db_projects s; db_organizations := db_organizations s;
     db_snoozes := db_snoozes s; db_assignees := m; db_hooks := db_hooks s |}.

Definition set_status (st : GroupStatus) (g : Group) : Group :=
  {| g_id := g_id g; g_project_id := g_project_id g;
     g_platform := g_platform g; g_status := st |}.

(** ** The monad of the module: state over [World], with exceptions *)

Inductive Result (A : Type) : Type :=
| Ok (a : A)
| Raise (e : Exn).
Arguments Ok {A} a.
Arguments Raise {A} e.

Definition M (A : Type) : Type := World -> World * Result A.

Definition ret {A} (a : A) : M A := fun w => (w, Ok a).

Definition raise {A} (e : Exn) : M A := fun w => (w, Raise e).

Definition bind {A B} (m : M A) (k : A -> M B) : M B :=
  fun w => match m w with
           | (w', Ok a) => k a w'
           | (w', Raise e) => (w', Raise e)
           end.

Declare Scope pp_scope.
Delimit Scope pp_scope with pp.
Notation "'do' x <- m ; k" := (bind m (fun x => k))
  (at level 10, x name, m at level 100, k at level 200) : pp_scope.
Notation "'do' ' p <- m ; k" := (bind m (fun x => match x with p => k end))
  (at level 10, p pattern, m at level 100, k at level 200) : pp_scope.
Notation "m ;; k" := (bind m (fun _ => k))
  (at level 100, k at level 200, right associativity) : pp_scope.
Local Open Scope pp_scope.

Definition effect (e : Effect) : M unit := fun w => (emit e w, Ok tt).

Definition when (b : bool) (m : M unit) : M unit := if b then m else ret tt.

(** [for x in xs: body(x)] *)
Fixpoint for_each {A} (xs : list A) (body : A -> M unit) : M unit :=
  match xs with
  | [] => ret tt
  | x :: rest => body x ;; for_each rest body
  end.

(** ** Collaborators that are not part of the module *)

(** Settings, options, feature flags and the collaborators the module
    only calls.  They are fixed during one run of the pipeline. *)
Record Env : Type := {
  (* settings.SENTRY_POST_PROCESSING_LOCK_REDIS_CLUSTER *)
  lock_cluster : option string;
  (* features.has(name, project=...) / features.has(name, organization=...) *)
  features_has : string -> Z -> bool;
  (* options 'post-process.use-error-hook-sampling' and
     'post-process.error-hook-sample-rate' *)
  use_error_hook_sampling : bool;
  error_hook_sample_rate : Q;
  (* the successive values of random.random() *)
  random_draws : nat -> Q;
  (* GroupSnooze.is_valid(group, test_rates=True), which reads the store
     and the clock *)
  snooze_is_valid : Store -> Z -> GroupSnooze -> Group -> bool;
  (* ProjectOwnership.get_autoassign_owner(project_id, data) *)
  autoassign_owner : Store -> Z -> EventData -> option Owner;
  (* RuleProcessor(event, is_new, is_regression, is_new_group_environment,
                   has_reappeared).apply(), which reads the store and the
     clock *)
  rule_processor_apply :
    Store -> Z -> Event -> bool -> bool -> bool -> bool -> list (Callback * Futures);
  (* the plugin registry, in registration order *)
  plugins_all : list Plugin
}.

(** [s.split(sep, 1)[0]]: the part of [s] before the first [sep], all of
    [s] when [sep] does not occur. *)
Fixpoint split_first (sep : ascii) (s : string) : string :=
  match s with
  | EmptyString => EmptyString
  | String c rest =>
      if Ascii.eqb c sep then EmptyString else String c (split_first sep rest)
  end.

Definition exn_name (e : Exn) : string :=
  match e with
  | ConnectionError => "ConnectionError"
  | DoesNotExist m => m +:+ ".DoesNotExist"
  | KeyError _ => "KeyError"
  | TypeError => "TypeError"
  | PluginError _ => "PluginError"
  | OtherError n => n
  end.

Definition is_plugin_error (e : Exn) : bool :=
  match e with PluginError _ => true | _ => false end.

Definition is_does_not_exist (model : string) (e : Exn) : bool :=
  match e with DoesNotExist m => String.eqb m model | _ => false end.

(** Python truth value of what the cache returned. *)
Definition truthy (v : CacheVal) : bool :=
  match v with
  | CInt n => negb (Z.eqb n 0)
  | CHooks hooks => match hooks with [] => false | _ => true end
  end.

(** Django cache: an entry is visible until its deadline. *)
Definition cache_get (key : string) : M (option CacheVal) :=
  fun w =>
    (emit (ECacheGet key) w,
     Ok (match cache w !! key with
         | Some (v, deadline) => if now w <? deadline then Some v else None
         | None => None
         end)).

Definition cache_set (key : string) (v : CacheVal) (timeout : Z) : M unit :=
  fun w =>
    (emit (ECacheSet key v timeout)
       (set_cache (<[key := (v, now w + timeout)]> (cache w)) w),
     Ok tt).

Definition redis_live (w : World) (key : string) : bool :=
  match redis w !! key with
  | Some (_, deadline) => now w <? deadline
  | None => false
  end.

(** [client.set(key, value, ex=ex, nx=True)]: sets the key only when it
    is absent (or has expired) and tells whether it did; the client
    raises when the cluster cannot be reached. *)
Definition redis_set_nx (key value : string) (ex : Z) : M bool :=
  fun w =>
    if redis_up w then
      if redis_live w key then (w, Ok false)
      else (set_redis (<[key := (value, now w + ex)]> (redis w)) w, Ok true)
    else (w, Raise ConnectionError).

(** [with configure_scope() as scope: scope.set_tag(key, value)] *)
Definition scope_set_tag (key : string) (value : Z) : M unit :=
  fun w => (set_scope_tags (<[key := value]> (scope_tags w)) w, Ok tt).

Definition logger_info (msg : string) (extra : list (string * string)) : M unit :=
  effect (ELog INFO msg extra).

Definition metrics_incr (name : string) (tags : list (string * string)) : M unit :=
  effect (EIncr name tags).

Definition metrics_timing (name : string) (value : Z)
    (tags : list (string * string)) : M unit :=
  effect (ETiming name value tags).

Definition delay (t : Task) : M unit := effect (EDelay t).

(** [try: body except <caught>: handler] *)
Definition try_except {A} (body : M A) (caught : Exn -> bool) (handler : M A) : M A :=
  fun w => match body w with
           | (w', Ok a) => (w', Ok a)
           | (w', Raise e) => if caught e then handler w' else (w', Raise e)
           end.

(** Modelled from the spec: [get_group_with_redirect] of
    sentry.models.group is not in the sources.  It re-fetches the issue
    from the store, following a redirect left by a merge, and fails when
    there is no such issue. *)
Definition get_group_with_redirect (group_id : Z) : M (Group * bool) :=
  fun w =>
    match db_groups (store w) !! group_id with
    | Some g => (w, Ok (g, false))
    | None =>
        match db_redirects (store w) !! group_id with
        | Some new_id =>
            match db_groups (store w) !! new_id with
            | Some g => (w, Ok (g, true))
            | None => (w, Raise (DoesNotExist "Group"))
            end
        | None => (w, Raise (DoesNotExist "Group"))
        end
    end.

(** Modelled from the spec: the ORM managers are not in the sources.
    [Model.objects.get_from_cache(id=...)] re-fetches a row from the
    store and raises [DoesNotExist] without one. *)
Definition project_get_from_cache (id : Z) : M Project :=
  fun w => match db_projects (store w) !! id with
           | Some p => (w, Ok p)
           | None => (w, Raise (DoesNotExist "Project"))
           end.

Definition organization_get_from_cache (id : Z) : M Organization :=
  fun w => match db_organizations (store w) !! id with
           | Some o => (w, Ok o)
           | None => (w, Raise (DoesNotExist "Organization"))
           end.

Definition snooze_get_from_cache (group : Group) : M GroupSnooze :=
  fun w => match db_snoozes (store w) !! g_id group with
           | Some s => (w, Ok s)
           | None => (w, Raise (DoesNotExist "GroupSnooze"))
           end.

(** [snooze.delete()] *)
Definition snooze_delete (group : Group) : M unit :=
  fun w => (set_store (set_snoozes (delete (g_id group) (db_snoozes (store w)))
                         (store w)) w, Ok tt).

(** [group.update(status=...)]: writes the row of the issue, when there
    is one, and the attribute of the object in memory. *)
Definition group_update_status (group : Group) (st : GroupStatus) : M Group :=
  fun w => (set_store (set_groups (alter (set_status st) (g_id group)
                                     (db_groups (store w))) (store w)) w,
            Ok (set_status st group)).

(** [group.assignee_set.exists()] *)
Definition assignee_set_exists (group : Group) : M bool :=
  fun w => (w, Ok (bool_decide (is_Some (db_assignees (store w) !! g_id group)))).

(** Modelled from the spec: [GroupAssignee.objects.assign] is not in the
    sources.  It is the store's conditional-assign primitive: the owner
    is written only if the issue is currently unassigned. *)
Definition group_assignee_assign (group : Group) (owner : Owner) : M unit :=
  fun w =>
    let w := emit (ECall (CallAssign (g_id group) owner)) w in
    match db_assignees (store w) !! g_id group with
    | Some _ => (w, Ok tt)
    | None =>
        (set_store (set_assignees (<[g_id group := owner]> (db_assignees (store w)))
                      (store w)) w, Ok tt)
    end.

(** Modelled from the spec: [safe_execute] of sentry.utils.safe is not
    in the sources.  It runs the call in isolation: an exception of a
    designated expected kind is a normal, loggable failure, any other
    exception is also caught and logged, and none is propagated. *)
Definition safe_execute {A} (func_name : string) (call : M A)
    (expected_errors : Exn -> bool) : M (option A) :=
  fun w =>
    match call w with
    | (w', Ok a) => (w', Ok (Some a))
    | (w', Raise e) =>
        if expected_errors e
        then (emit (ELog INFO (func_name +:+ ".process_error_ignored")
                      [("exception", exn_name e)]) w', Ok None)
        else (emit (ELog ERROR (func_name +:+ ".process_error")
                      [("exception", exn_name e)]) w', Ok None)
    end.

Definition no_expected_errors (e : Exn) : bool := false.

(** ** The module *)

Section PostProcess.

Variable env : Env.

(** [ServiceHook.objects.filter(servicehookproject__project_id=project_id)] *)
Definition service_hooks_of_project (project_id : Z) : M (list ServiceHook) :=
  fun w => (w, Ok (filter (fun h => project_id ∈ hook_project_ids h)
                     (db_hooks (store w)))).

(** [ServiceHook.objects.filter(organization_id=...)
      .extra(where=["events @> '{error.created}'"]).exists()] *)
Definition error_created_hook_exists (organization_id : Z) : M bool :=
  fun w =>
    (w, Ok (existsb (fun h => bool_decide (hook_organization_id h = organization_id)
                              && bool_decide ("error.created" ∈ hook_events h))
              (db_hooks (store w)))).

Definition _get_service_hooks (project_id : Z) : M CacheVal :=
  let cache_key := "servicehooks:1:" +:+ pretty project_id in
  do result <- cache_get cache_key;
  match result with
  | None =>
      do hooks <- service_hooks_of_project project_id;
      let result := CHooks (map (fun h => (hook_id h, hook_events h)) hooks) in
      cache_set cache_key result 60 ;;
      ret result
  | Some result => ret result
  end.

Definition random_random : M Q :=
  fun w => (set_rng_pos (S (rng_pos w)) w, Ok (random_draws env (rng_pos w))).

(** The caller only tests the truth value of what is returned (a bool,
    or the integer found in the cache), so that is what the model
    returns. *)
Definition _should_send_error_created_hooks (project : Project) : M bool :=
  let use_sampling := use_error_hook_sampling env in
  if use_sampling then
    do draw <- random_random;
    if Qle_bool (error_hook_sample_rate env) draw then ret false
    else ret true
  else
    let cache_key := "servicehooks-error-created:1:" +:+ pretty (p_id project) in
    do result <- cache_get cache_key;
    match result with
    | None =>
        do org <- organization_get_from_cache (p_organization_id project);
        if negb (features_has env "organizations:integrations-event-hooks" (org_id org))
        then cache_set cache_key (CInt 0) 60 ;; ret false
        else
          do result <- error_created_hook_exists (org_id org);
          let cache_value := if result then 1 else 0 in
          cache_set cache_key (CInt cache_value) 60 ;;
          ret result
    | Some result => ret (truthy result)
    end.

Definition _capture_stats (event : Event) (is_new : bool) : M unit :=
  let group := ev_group event in
  let platform := g_platform group in
  match platform with
  | None | Some "" => ret tt
  | Some platform =>
      let platform := split_first "_" (split_first "-" platform) in
      let tags := [("platform", platform)] in
      when is_new (metrics_incr "events.unique" tags) ;;
      metrics_incr "events.processed" tags ;;
      metrics_incr ("events.processed." +:+ platform) [] ;;
      metrics_timing "events.size.data" (ev_size event) tags
  end.

Definition lock_key (event : Event) : string :=
  "pp:" +:+ pretty (ev_project_id event) +:+ "/" +:+ ev_event_id event.

(** Returns [None] without a configured cluster, [not result]
    otherwise. *)
Definition check_event_already_post_processed (event : Event) : M (option bool) :=
  let cluster_key := lock_cluster env in
  match cluster_key with
  | None => ret None
  | Some _ =>
      fun w =>
        (do result <- redis_set_nx (lock_key event) (pretty (now w)) (60 * 60);
         ret (Some (negb result))) w
  end.

Definition get_autoassign_owner (project_id : Z) (data : EventData) : M (option Owner) :=
  fun w => (emit (ECall (CallGetAutoassignOwner project_id)) w,
            Ok (autoassign_owner env (store w) project_id data)).

Definition handle_owner_assignment (project : Project) (group : Group)
    (event : Event) : M unit :=
  (* Is the issue already assigned to a team or user? *)
  do assigned <- assignee_set_exists group;
  if assigned then ret tt
  else
    do owner <- get_autoassign_owner (g_project_id group) (ev_data event);
    match owner with
    | Some owner => group_assignee_assign group owner
    | None => ret tt
    end.

(** [snooze.is_valid(group, test_rates=True)] *)
Definition snooze_is_valid_now (snooze : GroupSnooze) (group : Group) : M bool :=
  fun w => (w, Ok (snooze_is_valid env (store w) (now w) snooze group)).

(** [group.update] also writes the object in memory, so the issue is
    returned along with the answer. *)
Definition process_snoozes (group : Group) : M (Group * bool) :=
  do found <- try_except (do snooze <- snooze_get_from_cache group; ret (Some snooze))
                (is_does_not_exist "GroupSnooze") (ret None);
  match found with
  | None => ret (group, false)
  | Some snooze =>
      do valid <- snooze_is_valid_now snooze group;
      if negb valid then
        snooze_delete group ;;
        do group <- group_update_status group UNRESOLVED;
        ret (group, true)
      else ret (group, false)
  end.

(** [plugins.get(slug)].
    Modelled from the spec: the plugin manager is not in the sources.
    The registry maps slugs to plugins and a lookup is a mapping read,
    which raises [KeyError] for a slug that has no entry. *)
Definition plugins_get (plugin_slug : string) : M Plugin :=
  match find (fun p => String.eqb (slug p) plugin_slug) (plugins_all env) with
  | Some p => ret p
  | None => raise (KeyError plugin_slug)
  end.

(** [plugins.for_project(project)]: the registered plugins that are
    enabled for the project. *)
Definition plugins_for_project (project : Project) : list Plugin :=
  filter (fun p => pl_enabled p (p_id project) = true) (plugins_all env).

(** [plugin.post_process(event=..., group=..., **kwargs)] *)
Definition post_process (plugin : Plugin) (event : Event) (group : Group)
    (is_new is_regresion is_sample : bool) : M unit :=
  effect (ECall (CallPostProcess (slug plugin) (ev_event_id event) (g_id group)
                   is_new is_regresion is_sample)) ;;
  match pl_post_process plugin with
  | Some e => raise e
  | None => ret tt
  end.

Definition plugin_post_process_group (plugin_slug : string) (event : Event)
    (is_new is_regresion is_sample : bool) : M unit :=
  scope_set_tag "project" (ev_project_id event) ;;
  do plugin <- plugins_get plugin_slug;
  do _ <- safe_execute "post_process"
            (post_process plugin event (ev_group event) is_new is_regresion is_sample)
            is_plugin_error;
  ret tt.

(** [callback(event, futures)] *)
Definition run_callback (callback : Callback) (event : Event) (futures : Futures)
    : M unit :=
  effect (ECall (CallCallback (cb_name callback) (ev_event_id event) futures)) ;;
  match cb_raises callback with
  | Some e => raise e
  | None => ret tt
  end.

Definition rp_apply (event : Event)
    (is_new is_regression is_new_group_environment has_reappeared : bool)
    : M (list (Callback * Futures)) :=
  fun w => (emit (ECall (CallRuleApply (ev_event_id event))) w,
            Ok (rule_processor_apply env (store w) (now w) event is_new is_regression
                  is_new_group_environment has_reappeared)).

(** The loop over [rp.apply()], carrying [has_alert]. *)
Fixpoint run_rule_callbacks (event : Event) (pending : list (Callback * Futures))
    (has_alert : bool) : M bool :=
  match pending with
  | [] => ret has_alert
  | (callback, futures) :: rest =>
      let has_alert := true in
      do _ <- safe_execute (cb_name callback) (run_callback callback event futures)
                no_expected_errors;
      run_rule_callbacks event rest has_alert
  end.

Definition allowed_events (has_alert : bool) : list string :=
  let allowed := ["event.created"] in
  if has_alert then allowed ++ ["event.alert"] else allowed.

(** [any(e in allowed_events for e in events)] *)
Definition any_allowed (allowed events : list string) : bool :=
  existsb (fun e => bool_decide (e ∈ allowed)) events.

Definition dispatch_service_hooks (event : Event) (allowed : list string)
    (hooks : list (Z * list string)) : M unit :=
  for_each hooks (fun '(servicehook_id, events) =>
    when (any_allowed allowed events)
      (delay (ProcessServiceHook servicehook_id
                (ev_project_id event) (ev_event_id event)))).

Definition service_hooks_stage (event : Event) (has_alert : bool) : M unit :=
  when (features_has env "projects:servicehooks" (p_id (ev_project event)))
    (let allowed := allowed_events has_alert in
     match allowed with
     | [] => ret tt
     | _ =>
         do hooks <- _get_service_hooks (ev_project_id event);
         match hooks with
         | CHooks hooks => dispatch_service_hooks event allowed hooks
         | CInt _ => raise TypeError
         end
     end).

Definition resource_change_stage (event : Event) (is_new : bool) : M unit :=
  do send_error <-
    (if String.eqb (ev_type event) "error"
     then _should_send_error_created_hooks (ev_project event)
     else ret false);
  when send_error
    (delay (ProcessResourceChange "created" SenderError
              (IdEvent (ev_event_id event)) (Some (ev_event_id event)))) ;;
  when is_new
    (delay (ProcessResourceChange "created" SenderGroup
              (IdGroup (ev_group_id event)) None)).

Definition plugins_stage (event : Event) (is_new is_regression is_sample : bool)
    : M unit :=
  for_each (plugins_for_project (ev_project event)) (fun plugin =>
    plugin_post_process_group (slug plugin) event is_new is_regression is_sample).

Definition event_processed_send_robust (event : Event)
    (primary_hash : option string) : M unit :=
  effect (ESignal (p_id (ev_project event)) (g_id (ev_group event))
            (ev_event_id event) primary_hash).

(** What [post_process_group] does once the event has passed the dedup
    guard: the rest of the function body. *)
Definition post_process_stages (event : Event)
    (is_new is_regression is_sample is_new_group_environment : bool)
    (primary_hash : option string) : M unit :=
    (* Re-bind node data to avoid renormalization. *)
    let event := with_data (ev_data event) event in
    (* Re-bind Group, which may be stale. *)
    do '(group, _) <- get_group_with_redirect (ev_group_id event);
    let event := with_group group event in
    let project_id := g_project_id (ev_group event) in
    scope_set_tag "project" project_id ;;
    (* Re-bind Project, which may be stale. *)
    do project <- project_get_from_cache project_id;
    let event := with_project project event in
    _capture_stats event is_new ;;
    (* we process snoozes before rules as it might create a regression *)
    do '(group, has_reappeared) <- process_snoozes (ev_group event);
    let event := with_group group event in
    handle_owner_assignment (ev_project event) (ev_group event) event ;;
    do pending <- rp_apply event is_new is_regression is_new_group_environment
                    has_reappeared;
    do has_alert <- run_rule_callbacks event pending false;
    service_hooks_stage event has_alert ;;
    resource_change_stage event is_new ;;
    plugins_stage event is_new is_regression is_sample ;;
    event_processed_send_robust event primary_hash.

Definition skipped_extra (event : Event) : list (string * string) :=
  [("project_id", pretty (ev_project_id event));
   ("event_id", ev_event_id event);
   ("reason", "duplicate")].

(** Fires post processing hooks for a group. *)
Definition post_process_group (event : Event)
    (is_new is_regression is_sample is_new_group_environment : bool)
    (primary_hash : option string) : M unit :=
  do duplicate <- check_event_already_post_processed event;
  if default false duplicate then
    logger_info "post_process.skipped" (skipped_extra event)
  else
    post_process_stages event is_new is_regression is_sample
      is_new_group_environment primary_hash.

End PostProcess.

(** ** Vocabulary of the properties *)

(** Several effects in a row. *)
Definition emit_all (es : list Effect) (w : World) : World :=
  fold_left (fun w e => emit e w) es w.

Definition is_separator (c : ascii) : Prop := c = "-"%char ∨ c = "_"%char.

Fixpoint string_In (c : ascii) (s : string) : Prop :=
  match s with
  | EmptyString => False
  | String c' rest => c = c' ∨ string_In c rest
  end.

(** The coarse platform of [_capture_stats]. *)
Definition coarse_platform (platform : string) : string :=
  split_first "_" (split_first "-" platform).

(** What [_capture_stats] records for an issue with a platform. *)
Definition stats_effects (platform : string) (size : Z) (is_new : bool)
    : list Effect :=
  let tags := [("platform", coarse_platform platform)] in
  (if is_new then [EIncr "events.unique" tags] else [])
  ++ [EIncr "events.processed" tags;
      EIncr ("events.processed." +:+ coarse_platform platform) [];
      ETiming "events.size.data" size tags].
(** ** Sample inputs *)

Definition sample_group : Group :=
  {| g_id := 7; g_project_id := 42;
     g_platform := Some "python-django_rest"; g_status := RESOLVED |}.

Definition sample_project : Project := {| p_id := 42; p_organization_id := 1 |}.

Definition sample_event : Event :=
  {| ev_project_id := 42; ev_event_id := "abc"; ev_group_id := 7;
     ev_size := 100; ev_type := "error"; ev_data := [];
     ev_group := sample_group; ev_project := sample_project |}.

Definition group_without_platform : Group :=
  {| g_id := 7; g_project_id := 42; g_platform := None; g_status := RESOLVED |}.

Definition event_without_platform : Event :=
  with_group group_without_platform sample_event.

Definition sample_hooks : list ServiceHook :=
  [ {| hook_id := 1; hook_organization_id := 1; hook_project_ids := [42];
       hook_events := ["event.created"] |};
    {| hook_id := 2; hook_organization_id := 1; hook_project_ids := [42];
       hook_events := ["event.alert"] |} ].

Definition sample_store : Store :=
  {| db_groups := {[ 7 := sample_group ]};
     db_redirects := ∅;
     db_projects := {[ 42 := sample_project ]};
     db_organizations := {[ 1 := {| org_id := 1 |} ]};
     db_snoozes := {[ 7 := {| sn_until := Some 900; sn_count := None |} ]};
     db_assignees := ∅;
     db_hooks := sample_hooks |}.

Definition sample_world : World :=
  {| store := sample_store; redis_up := true; redis := ∅; cache := ∅;
     now := 1000; scope_tags := ∅; rng_pos := 0%nat; trace := [] |}.

(** The same world while the lock cluster cannot be reached. *)
Definition world_redis_down : World :=
  {| store := sample_store; redis_up := false; redis := ∅; cache := ∅;
     now := 1000; scope_tags := ∅; rng_pos := 0%nat; trace := [] |}.

Definition failing_callback : Callback :=
  {| cb_name := "mail"; cb_raises := Some (OtherError "SMTPException") |}.

Definition failing_plugin : Plugin :=
  {| slug := "slack"; pl_enabled := fun _ => true;
     pl_post_process := Some (PluginError "rate limited") |}.

(** A deployment with the lock cluster configured, error hooks sampled
    at rate 0, a snooze that has run out, one alert rule whose callback
    raises and one plugin that raises. *)
Definition sample_env : Env :=
  {| lock_cluster := Some "default";
     features_has := fun _ _ => true;
     use_error_hook_sampling := true;
     error_hook_sample_rate := 0%Q;
     random_draws := fun _ => (1 # 2)%Q;
     snooze_is_valid := fun _ t snooze _ =>
       match sn_until snooze with Some u => t <? u | None => true end;
     autoassign_owner := fun _ _ _ => Some (OwnerUser 3);
     rule_processor_apply := fun _ _ _ _ _ _ _ => [(failing_callback, [1])];
     plugins_all := [failing_plugin] |}.

(** The same deployment without a lock cluster. *)
Definition env_without_lock : Env :=
  {| lock_cluster := None;
     features_has := features_has sample_env;
     use_error_hook_sampling := use_error_hook_sampling sample_env;
     error_hook_sample_rate := error_hook_sample_rate sample_env;
     random_draws := random_draws sample_env;
     snooze_is_valid := snooze_is_valid sample_env;
     autoassign_owner := autoassign_owner sample_env;
     rule_processor_apply := rule_processor_apply sample_env;
     plugins_all := plugins_all sample_env |}.
(** ** Service-hook vocabulary *)

(** A hook, as [_get_service_hooks] lists it, is subscribed to one of
    the allowed event types. *)
Definition subscribed (allowed : list string) (hook : Z * list string) : Prop :=
  Exists (λ e, e ∈ allowed) hook.2.

#[global] Instance subscribed_dec allowed hook : Decision (subscribed allowed hook).
Proof. unfold subscribed. apply _. Defined.

Definition hook_delivery (event : Event) (hook : Z * list string) : Effect :=
  EDelay (ProcessServiceHook hook.1 (ev_project_id event) (ev_event_id event)).

Definition group_created (event : Event) : Effect :=
  EDelay (ProcessResourceChange "created" SenderGroup (IdGroup (ev_group_id event))
            None).

Definition error_created (event : Event) : Effect :=
  EDelay (ProcessResourceChange "created" SenderError (IdEvent (ev_event_id event))
            (Some (ev_event_id event))).
(** ** Frames *)

(** A computation leaves a component of the world as it found it,
    whether it returns or raises. *)
Definition preserves {A B : Type} (proj : World -> B) (m : M A) : Prop :=
  ∀ w, proj (m w).1 = proj w.
(** The world [dt] seconds later, with nothing else changed. *)
Definition advance (dt : Z) (w : World) : World :=
  {| store := store w; redis_up := redis_up w; redis := redis w;
     cache := cache w; now := now w + dt; scope_tags := scope_tags w;
     rng_pos := rng_pos w; trace := trace w |}.

(** The world after a delivery was skipped as a duplicate. *)
Definition skipped (event : Event) (w : World) : World :=
  emit (ELog INFO "post_process.skipped" (skipped_extra event)) w.
Definition is_log (e : Effect) : bool :=
  match e with ELog _ _ _ => true | _ => false end.

(** What a run did to the outside, log entries apart. *)
Definition non_log (t : list Effect) : list Effect :=
  filter (λ e, is_log e = false) t.
(** The first delivery of the sample event, and the world ten seconds
    after it. *)
Definition first_delivery : World * Result unit :=
  post_process_group sample_env sample_event true false false false None
    sample_world.

Definition world_at_redelivery : World := advance 10 first_delivery.1.
(** ** Isolation vocabulary *)

(** Everything of a world but its trace. *)
Definition core (w : World) :=
  (store w, redis_up w, redis w, cache w, now w, scope_tags w, rng_pos w).

(** Two worlds differ at most in their log entries. *)
Definition same_but_logs (w w' : World) : Prop :=
  core w = core w' ∧ non_log (trace w) = non_log (trace w').

Definition result_rel {A} (RA : A -> A -> Prop) (r r' : Result A) : Prop :=
  match r, r' with
  | Ok a, Ok a' => RA a a'
  | Raise e, Raise e' => e = e'
  | _, _ => False
  end.

(** Two computations do the same, log entries apart. *)
Definition related {A} (RA : A -> A -> Prop) (m m' : M A) : Prop :=
  ∀ w w', same_but_logs w w' →
    same_but_logs (m w).1 (m' w').1 ∧ result_rel RA (m w).2 (m' w').2.

(** The callback, the plugin and the deployment in which no rule
    callback and no plugin ever raises. *)
Definition quiet_callback (c : Callback) : Callback :=
  {| cb_name := cb_name c; cb_raises := None |}.

Definition quiet_pending (pending : list (Callback * Futures))
    : list (Callback * Futures) :=
  map (λ cf, (quiet_callback cf.1, cf.2)) pending.

Definition quiet_plugin (p : Plugin) : Plugin :=
  {| slug := slug p; pl_enabled := pl_enabled p; pl_post_process := None |}.

Definition quiet (env : Env) : Env :=
  {| lock_cluster := lock_cluster env;
     features_has := features_has env;
     use_error_hook_sampling := use_error_hook_sampling env;
     error_hook_sample_rate := error_hook_sample_rate env;
     random_draws := random_draws env;
     snooze_is_valid := snooze_is_valid env;
     autoassign_owner := autoassign_owner env;
     rule_processor_apply := λ s t event a b c d,
       quiet_pending (rule_processor_apply env s t event a b c d);
     plugins_all := map quiet_plugin (plugins_all env) |}.

(** The invocations of rule callbacks and of plugins in a trace. *)
Definition invocations (t : list Effect) : list Call :=
  omap (λ e, match e with
             | ECall (CallCallback n ev f) => Some (CallCallback n ev f)
             | ECall (CallPostProcess s ev g a b c) => Some (CallPostProcess s ev g a b c)
             | _ => None
             end) t.

(** ** Cache vocabulary *)

(** What a read of the Django cache finds under a key. *)
Definition cache_lookup (w : World) (key : string) : option CacheVal :=
  match cache w !! key with
  | Some (v, deadline) => if now w <? deadline then Some v else None
  | None => None
  end.

Definition hooks_cache_key (project_id : Z) : string :=
  "servicehooks:1:" +:+ pretty project_id.

Definition error_hooks_cache_key (project_id : Z) : string :=
  "servicehooks-error-created:1:" +:+ pretty project_id.

(** The hooks of a project as [_get_service_hooks] lists them. *)
Definition listed_hooks (project_id : Z) (s : Store) : list (Z * list string) :=
  map (λ h, (hook_id h, hook_events h))
    (filter (λ h, project_id ∈ hook_project_ids h) (db_hooks s)).

(** Some hook of the organization subscribes to error.created. *)
Definition has_error_created_hook (organization_id : Z) (s : Store) : Prop :=
  ∃ h, h ∈ db_hooks s ∧ hook_organization_id h = organization_id
       ∧ "error.created" ∈ hook_events h.

(** A deployment that decides error hooks through the feature flag. *)
Definition env_without_sampling : Env :=
  {| lock_cluster := lock_cluster sample_env;
     features_has := features_has sample_env;
     use_error_hook_sampling := false;
     error_hook_sample_rate := error_hook_sample_rate sample_env;
     random_draws := random_draws sample_env;
     snooze_is_valid := snooze_is_valid sample_env;
     autoassign_owner := autoassign_owner sample_env;
     rule_processor_apply := rule_processor_apply sample_env;
     plugins_all := plugins_all sample_env |}.

(** The sample store after every service hook was removed. *)
Definition store_without_hooks : Store :=
  {| db_groups := db_groups sample_store; db_redirects := db_redirects sample_store;
     db_projects := db_projects sample_store;
     db_organizations := db_organizations sample_store;
     db_snoozes := db_snoozes sample_store;
     db_assignees := db_assignees sample_store; db_hooks := [] |}.
(** The first lookup of the hooks of the sample project, and the world
    [dt] seconds later, after every hook was removed from the store. *)
Definition hooks_first_lookup : World * Result CacheVal :=
  _get_service_hooks 42 sample_world.

Definition world_hooks_removed (dt : Z) : World :=
  set_store store_without_hooks (advance dt hooks_first_lookup.1).

(** The first error-hook decision for the sample project, and the world
    [dt] seconds later, after every hook was removed from the store. *)
Definition decision_first : World * Result bool :=
  _should_send_error_created_hooks env_without_sampling sample_project
    sample_world.

Definition world_decision_later (dt : Z) : World :=
  set_store store_without_hooks (advance dt decision_first.1).
Definition is_digit (c : ascii) : Prop :=
  c ∈ ["0"; "1"; "2"; "3"; "4"; "5"; "6"; "7"; "8"; "9"]%char.


Definition other_event : Event :=
  {| ev_project_id := 42; ev_event_id := "def"; ev_group_id := 7;
     ev_size := 10; ev_type := "error"; ev_data := [];
     ev_group := sample_group; ev_project := sample_project |}.

(** ** Runs *)

(** Every run of a computation, whether it returns or raises, takes the
    world to one that is [R]-related to it. *)
Definition steps {A : Type} (R : World -> World -> Prop) (m : M A) : Prop :=
  ∀ w, R w (m w).1.

(** The trace has only grown, and by effects that satisfy [P]. *)
Definition emits (P : Effect -> Prop) (w w' : World) : Prop :=
  ∃ new, trace w' = trace w ++ new ∧ Forall P new.

Definition is_signal (e : Effect) : Prop :=
  match e with ESignal _ _ _ _ => True | _ => False end.

(** A run that returns has sent the completion signal of the event as
    its last effect and no other; a run that raises has sent none. *)
Definition signals_at_end (event : Event) (primary_hash : option string)
    (m : M unit) : Prop :=
  ∀ w, ∃ new, trace (m w).1 = trace w ++ new
    ∧ match (m w).2 with
      | Ok _ => ∃ front project_id group_id,
                  new = front ++ [ESignal project_id group_id (ev_event_id event)
                                    primary_hash]
                  ∧ Forall (λ e, ¬ is_signal e) front
      | Raise _ => Forall (λ e, ¬ is_signal e) new
      end.
(** Effects of the service-hook fan-out: a delivery to a hook, or
    traffic on the hook-list cache. *)
Definition service_hook_effect (e : Effect) : Prop :=
  match e with
  | EDelay (ProcessServiceHook _ _ _) => True
  | ECacheGet key | ECacheSet key _ _ => ∃ project_id, key = hooks_cache_key project_id
  | _ => False
  end.

(** Effects of the error-created notification: the notification itself,
    or traffic on the cache of the decision. *)
Definition error_hook_effect (e : Effect) : Prop :=
  match e with
  | EDelay (ProcessResourceChange _ SenderError _ _) => True
  | ECacheGet key | ECacheSet key _ _ =>
      ∃ project_id, key = error_hooks_cache_key project_id
  | _ => False
  end.

(** Effects reserved to the first event of an issue. *)
Definition new_issue_effect (e : Effect) : Prop :=
  match e with
  | EDelay (ProcessResourceChange _ SenderGroup _ _) => True
  | EIncr "events.unique" _ => True
  | _ => False
  end.

(** How the pipeline may change the store: it writes no project,
    organization, redirect or hook; of an issue it changes at most the
    status, to UNRESOLVED; it may delete snoozes; it keeps every
    assignee. *)
Definition store_evolves (s s' : Store) : Prop :=
  db_projects s' = db_projects s
  ∧ db_organizations s' = db_organizations s
  ∧ db_redirects s' = db_redirects s
  ∧ db_hooks s' = db_hooks s
  ∧ (∀ gid, db_groups s' !! gid = db_groups s !! gid
            ∨ db_groups s' !! gid = set_status UNRESOLVED <$> db_groups s !! gid)
  ∧ (∀ gid, db_snoozes s' !! gid = db_snoozes s !! gid
            ∨ db_snoozes s' !! gid = None)
  ∧ (∀ gid owner, db_assignees s !! gid = Some owner →
                  db_assignees s' !! gid = Some owner).

Definition store_run (w w' : World) : Prop := store_evolves (store w) (store w').

(** A deployment in which no project has the service-hooks feature. *)
Definition env_without_service_hooks : Env :=
  {| lock_cluster := lock_cluster sample_env;
     features_has := fun name _ => negb (String.eqb name "projects:servicehooks");
     use_error_hook_sampling := use_error_hook_sampling sample_env;
     error_hook_sample_rate := error_hook_sample_rate sample_env;
     random_draws := random_draws sample_env;
     snooze_is_valid := snooze_is_valid sample_env;
     autoassign_owner := autoassign_owner sample_env;
     rule_processor_apply := rule_processor_apply sample_env;
     plugins_all := plugins_all sample_env |}.

(** An event of the sample issue that is not an error. *)
Definition transaction_event : Event :=
  {| ev_project_id := 42; ev_event_id := "0f1e"; ev_group_id := 7;
     ev_size := 10; ev_type := "transaction"; ev_data := [];
     ev_group := sample_group; ev_project := sample_project |}.
(** The issue that [get_group_with_redirect] finds for an id. *)
Definition rebound_group (s : Store) (group_id : Z) : option Group :=
  match db_groups s !! group_id with
  | Some g => Some g
  | None => match db_redirects s !! group_id with
            | Some new_id => db_groups s !! new_id
            | None => None
            end
  end.




Definition cache_kept_at (key : string) (w w' : World) : Prop :=
  cache w' !! key = cache w !! key.

(** A deployment that samples every error. *)
Definition env_sampling_all : Env :=
  {| lock_cluster := lock_cluster sample_env;
     features_has := features_has sample_env;
     use_error_hook_sampling := true;
     error_hook_sample_rate := 1%Q;
     random_draws := random_draws sample_env;
     snooze_is_valid := snooze_is_valid sample_env;
     autoassign_owner := autoassign_owner sample_env;
     rule_processor_apply := rule_processor_apply sample_env;
     plugins_all := plugins_all sample_env |}.
Definition rng_kept (w w' : World) : Prop := rng_pos w' = rng_pos w.
(** ** Stage order *)

Fixpoint starts_with (p s : string) {struct p} : bool :=
  match p with
  | EmptyString => true
  | String a p' =>
      match s with
      | EmptyString => false
      | String b s' => Ascii.eqb a b && starts_with p' s'
      end
  end.

(** The stage of [post_process_group] an effect belongs to: metrics,
    owner assignment, rule evaluation, rule callbacks, service hooks,
    resource-change notifications, plugins, completion signal.  Log
    entries belong to no stage. *)
Definition stage_of (e : Effect) : nat :=
  match e with
  | EIncr _ _ | ETiming _ _ _ => 0
  | ECall (CallGetAutoassignOwner _) | ECall (CallAssign _ _) => 1
  | ECall (CallRuleApply _) => 2
  | ECall (CallCallback _ _ _) => 3
  | ECacheGet key | ECacheSet key _ _ =>
      if starts_with "servicehooks:1:" key then 4 else 5
  | EDelay (ProcessServiceHook _ _ _) => 4
  | EDelay (ProcessResourceChange _ _ _ _) => 5
  | ECall (CallPostProcess _ _ _ _ _ _) => 6
  | ESignal _ _ _ _ => 7
  | ELog _ _ _ => 0
  end%nat.

(** The effects of [l] that are not log entries come in stage order,
    none of them from a stage before [k]. *)
Fixpoint staged (k : nat) (l : list Effect) : Prop :=
  match l with
  | [] => True
  | e :: l' =>
      if is_log e then staged k l'
      else (k ≤ stage_of e)%nat ∧ staged (stage_of e) l'
  end.

(** Whatever a run adds to the trace is in stage order from [k] on. *)
Definition in_order (k : nat) {A : Type} (m : M A) : Prop :=
  ∀ w, ∃ new, trace (m w).1 = trace w ++ new ∧ staged k new.

(** A log entry, or an effect of stage [k]. *)
Definition of_stage (k : nat) (e : Effect) : Prop :=
  is_log e = true ∨ stage_of e = k.

(** * Properties *)

(** ** Snoozes *)

Section Snoozes.

Variable env : Env.

Lemma process_snoozes_none (group : Group) (w : World) :
  db_snoozes (store w) !! g_id group = None →
  process_snoozes env group w = (w, Ok (group, false)).
Proof.
  intros Hnone.
  unfold process_snoozes, try_except, snooze_get_from_cache, bind, ret.
  rewrite Hnone. reflexivity.
Qed.

Lemma process_snoozes_some (group : Group) (w : World) (snooze : GroupSnooze) :
  db_snoozes (store w) !! g_id group = Some snooze →
  process_snoozes env group w =
    if snooze_is_valid env (store w) (now w) snooze group
    then (w, Ok (group, false))
    else (set_store
            (set_groups (alter (set_status UNRESOLVED) (g_id group)
                           (db_groups (store w)))
               (set_snoozes (delete (g_id group) (db_snoozes (store w))) (store w)))
            w,
          Ok (set_status UNRESOLVED group, true)).
Proof.
  intros Hsome.
  unfold process_snoozes, try_except, snooze_get_from_cache, snooze_is_valid_now,
    bind, ret.
  rewrite Hsome.
  destruct (snooze_is_valid env (store w) (now w) snooze group); reflexivity.
Qed.

(** C2.  [process_snoozes] on an issue: without a snooze it answers
    [False] and changes nothing; with a snooze that is still valid it
    answers [False] and changes neither the snooze nor the issue; with a
    snooze that is no longer valid it deletes that snooze (and no
    other), sets the status of the issue to UNRESOLVED whatever it was,
    in memory and in its row of the store, and answers [True]. *)
Theorem process_snoozes_spec (group : Group) (w : World) :
  match db_snoozes (store w) !! g_id group with
  | None => process_snoozes env group w = (w, Ok (group, false))
  | Some snooze =>
      if snooze_is_valid env (store w) (now w) snooze group
      then process_snoozes env group w = (w, Ok (group, false))
      else
        ∃ w' group',
          process_snoozes env group w = (w', Ok (group', true))
          ∧ g_status group' = UNRESOLVED
          ∧ g_id group' = g_id group
          ∧ db_snoozes (store w') !! g_id group = None
          ∧ (∀ other, other ≠ g_id group →
               db_snoozes (store w') !! other = db_snoozes (store w) !! other
               ∧ db_groups (store w') !! other = db_groups (store w) !! other)
          ∧ (g_status <$> db_groups (store w') !! g_id group)
            = ((λ _, UNRESOLVED) <$> db_groups (store w) !! g_id group)
          ∧ db_assignees (store w') = db_assignees (store w)
          ∧ trace w' = trace w
  end.
Proof.
  destruct (db_snoozes (store w) !! g_id group) as [snooze|] eqn:Hs.
  - rewrite (process_snoozes_some _ _ _ Hs).
    destruct (snooze_is_valid env (store w) (now w) snooze group); [reflexivity|].
    eexists _, _. split; [reflexivity|]. simpl.
    repeat split.
    + apply lookup_delete_eq.
    + by apply lookup_delete_ne.
    + by apply lookup_alter_ne.
    + rewrite lookup_alter_eq. by destruct (db_groups (store w) !! g_id group).
  - by apply process_snoozes_none.
Qed.

End Snoozes.

(** ** Owner assignment *)

Section Ownership.

Variable env : Env.

Lemma handle_owner_assignment_assigned project group event w :
  is_Some (db_assignees (store w) !! g_id group) →
  handle_owner_assignment env project group event w = (w, Ok tt).
Proof.
  intros Hsome.
  unfold handle_owner_assignment, assignee_set_exists, bind, ret.
  by rewrite bool_decide_eq_true_2.
Qed.

Lemma handle_owner_assignment_unassigned project group event w :
  db_assignees (store w) !! g_id group = None →
  handle_owner_assignment env project group event w =
    let w1 := emit (ECall (CallGetAutoassignOwner (g_project_id group))) w in
    match autoassign_owner env (store w) (g_project_id group) (ev_data event) with
    | Some owner =>
        let w2 := emit (ECall (CallAssign (g_id group) owner)) w1 in
        (set_store (set_assignees (<[g_id group := owner]> (db_assignees (store w)))
                      (store w)) w2, Ok tt)
    | None => (w1, Ok tt)
    end.
Proof.
  intros Hnone.
  unfold handle_owner_assignment, assignee_set_exists, get_autoassign_owner,
    group_assignee_assign, bind, ret.
  rewrite bool_decide_eq_false_2; [|rewrite Hnone; by intros [? ?]].
  simpl. destruct (autoassign_owner _ _ _ _); [|reflexivity].
  simpl. by rewrite Hnone.
Qed.

(** C9.  [handle_owner_assignment] never changes the assignee of an
    issue that has one.  If the issue of the event is assigned, the
    stage returns with the world as it found it: no ownership rule is
    evaluated and nothing is written.  Whatever the input, every issue
    that had an assignee keeps it, and an issue whose assignee differs
    afterwards is the issue of the event, was unassigned, and received
    the owner that the ownership rules gave for the event. *)
Theorem handle_owner_assignment_monotone
    (project : Project) (group : Group) (event : Event) (w : World) :
  (is_Some (db_assignees (store w) !! g_id group) →
     handle_owner_assignment env project group event w = (w, Ok tt))
  ∧ ∃ w', handle_owner_assignment env project group event w = (w', Ok tt)
      ∧ (∀ gid owner, db_assignees (store w) !! gid = Some owner →
           db_assignees (store w') !! gid = Some owner)
      ∧ (∀ gid, db_assignees (store w') !! gid ≠ db_assignees (store w) !! gid →
           gid = g_id group
           ∧ db_assignees (store w) !! gid = None
           ∧ ∃ owner,
               autoassign_owner env (store w) (g_project_id group) (ev_data event)
                 = Some owner
               ∧ db_assignees (store w') !! gid = Some owner).
Proof.
  split; [apply handle_owner_assignment_assigned|].
  destruct (db_assignees (store w) !! g_id group) as [o|] eqn:Ha.
  - exists w. rewrite handle_owner_assignment_assigned; [|by rewrite Ha].
    split; [done|]. split; [done|]. intros gid Hne. by destruct Hne.
  - rewrite (handle_owner_assignment_unassigned _ _ _ _ Ha). simpl.
    destruct (autoassign_owner _ _ _ _) as [owner|] eqn:Ho.
    + eexists. split; [reflexivity|]. simpl. split.
      * intros gid o Hg. rewrite lookup_insert_ne; [done|]. congruence.
      * intros gid Hne. destruct (decide (gid = g_id group)) as [->|Hd].
        -- rewrite lookup_insert_eq. eauto.
        -- rewrite lookup_insert_ne in Hne; [by destruct Hne|done].
    + eexists. split; [reflexivity|]. simpl. split; [done|].
      intros gid Hne. by destruct Hne.
Qed.

End Ownership.

Lemma handle_owner_assignment_monotone_witness :
  let assigned :=
    set_store (set_assignees {[ 7 := OwnerTeam 5 ]} sample_store) sample_world in
  is_Some (db_assignees (store assigned) !! g_id sample_group)
  ∧ handle_owner_assignment sample_env sample_project sample_group sample_event
      assigned = (assigned, Ok tt).
Proof.
  intros assigned.
  assert (is_Some (db_assignees (store assigned) !! g_id sample_group)) as Hsome.
  { exists (OwnerTeam 5). vm_compute. reflexivity. }
  split; [exact Hsome|].
  exact (proj1 (handle_owner_assignment_monotone sample_env sample_project
                  sample_group sample_event assigned) Hsome).
Defined.

(** ** Metrics *)

Section Stats.

Variable env : Env.

Lemma append_cons (c : ascii) (a b : string) :
  String c a +:+ b = String c (a +:+ b).
Proof. reflexivity. Qed.

Lemma append_assoc (a b c : string) : (a +:+ b) +:+ c = a +:+ (b +:+ c).
Proof.
  induction a as [|x a IH]; [done|]. rewrite !append_cons. by rewrite IH.
Qed.

Lemma split_first_prefix sep s :
  ∃ rest, s = split_first sep s +:+ rest
          ∧ (rest = "" ∨ ∃ r, rest = String sep r).
Proof.
  induction s as [|c s IH]; simpl.
  - exists "". by split; [|left].
  - destruct (Ascii.eqb_spec c sep) as [->|Hne].
    + exists (String sep s). split; [done|]. right. by exists s.
    + destruct IH as (rest & Heq & Hrest).
      exists rest. split; [|done]. rewrite append_cons. by f_equal.
Qed.

Lemma split_first_not_In sep s : ¬ string_In sep (split_first sep s).
Proof.
  induction s as [|c s IH]; simpl; [tauto|].
  destruct (Ascii.eqb_spec c sep) as [->|Hne]; simpl; [tauto|].
  intros [Heq|Hin]; [congruence|tauto].
Qed.

Lemma split_first_In_inv c sep s :
  string_In c (split_first sep s) → string_In c s.
Proof.
  induction s as [|c' s IH]; simpl; [tauto|].
  destruct (Ascii.eqb c' sep); simpl; tauto.
Qed.

(** The coarse platform is the part of the platform before its first
    separator. *)
Lemma coarse_platform_spec platform :
  (∀ c, is_separator c → ¬ string_In c (coarse_platform platform))
  ∧ ∃ rest, platform = coarse_platform platform +:+ rest
            ∧ (rest = "" ∨ ∃ c r, rest = String c r ∧ is_separator c).
Proof.
  unfold coarse_platform. split.
  - intros c [-> | ->].
    + intros Hin%split_first_In_inv. by apply split_first_not_In in Hin.
    + apply split_first_not_In.
  - destruct (split_first_prefix "-" platform) as (r1 & H1 & Hr1).
    destruct (split_first_prefix "_" (split_first "-" platform)) as (r2 & H2 & Hr2).
    exists (r2 +:+ r1). split.
    + rewrite <- append_assoc, <- H2. exact H1.
    + destruct Hr2 as [-> | (r & ->)].
      * destruct Hr1 as [-> | (r & ->)]; [by left|].
        right. exists "-"%char, r. split; [done|by left].
      * right. exists "_"%char, (r +:+ r1). split; [done|by right].
Qed.

Lemma trace_emit_all es w : trace (emit_all es w) = trace w ++ es.
Proof.
  revert w. induction es as [|e es IH]; intros w; simpl.
  - by rewrite app_nil_r.
  - unfold emit_all in IH. rewrite IH. simpl. by rewrite <- app_assoc.
Qed.

Lemma _capture_stats_no_platform event is_new w :
  g_platform (ev_group event) = None ∨ g_platform (ev_group event) = Some "" →
  _capture_stats event is_new w = (w, Ok tt).
Proof. unfold _capture_stats. by intros [-> | ->]. Qed.

Lemma _capture_stats_platform event is_new w platform :
  g_platform (ev_group event) = Some platform →
  platform ≠ "" →
  _capture_stats event is_new w =
    (emit_all (stats_effects platform (ev_size event) is_new) w, Ok tt).
Proof.
  intros Hp Hne. unfold _capture_stats. rewrite Hp.
  destruct platform as [|c rest]; [done|].
  by destruct is_new.
Qed.

End Stats.

Section StatsSpec.

Example coarse_platform_python : coarse_platform "python-django_rest" = "python".
Proof. reflexivity. Qed.

Example coarse_platform_underscore : coarse_platform "java_spring-boot" = "java".
Proof. reflexivity. Qed.

(** C7, as the spec words it, fails: for an issue without a platform
    the stage returns before it records anything, also for a new
    issue. *)
Lemma _capture_stats_without_platform_records_nothing :
  g_platform (ev_group event_without_platform) = None
  ∧ _capture_stats event_without_platform true sample_world = (sample_world, Ok tt)
  ∧ ¬ (∃ tags, EIncr "events.processed" tags
               ∈ trace (_capture_stats event_without_platform true sample_world).1).
Proof.
  split; [reflexivity|]. split; [reflexivity|].
  intros [tags Hin]. simpl in Hin. by apply elem_of_nil in Hin.
Qed.

(** C7, amended.  For an event whose issue has a non-empty platform,
    [_capture_stats] records, in this order and tagged with the coarse
    platform: events.unique iff [is_new], events.processed, the
    per-platform events.processed.<coarse platform>, and the size of the
    event as the timing events.size.data; it changes nothing else and
    does not raise.  The coarse platform is the platform up to its first
    '-' or '_'.  For an issue without a platform (None or empty) the
    stage records nothing. *)
Theorem _capture_stats_spec (event : Event) (is_new : bool) (w : World) :
  match g_platform (ev_group event) with
  | None | Some "" => _capture_stats event is_new w = (w, Ok tt)
  | Some platform =>
      let coarse := coarse_platform platform in
      let tags := [("platform", coarse)] in
      ∃ w', _capture_stats event is_new w = (w', Ok tt)
        ∧ trace w' = trace w
                     ++ (if is_new then [EIncr "events.unique" tags] else [])
                     ++ [EIncr "events.processed" tags;
                         EIncr ("events.processed." +:+ coarse) [];
                         ETiming "events.size.data" (ev_size event) tags]
        ∧ store w' = store w ∧ redis w' = redis w ∧ cache w' = cache w
        ∧ (∀ c, is_separator c → ¬ string_In c coarse)
        ∧ ∃ rest, platform = coarse +:+ rest
                  ∧ (rest = "" ∨ ∃ c r, rest = String c r ∧ is_separator c)
  end.
Proof.
  destruct (g_platform (ev_group event)) as [platform|] eqn:Hp.
  - destruct platform as [|c rest].
    + apply _capture_stats_no_platform. by right.
    + lazy iota beta. set (platform := String c rest) in *.
      rewrite (_capture_stats_platform _ _ _ _ Hp); [|done].
      eexists. split; [reflexivity|].
      rewrite trace_emit_all. split; [reflexivity|].
      assert (∀ es w0, store (emit_all es w0) = store w0
                       ∧ redis (emit_all es w0) = redis w0
                       ∧ cache (emit_all es w0) = cache w0) as Hframe.
      { induction es as [|e es IH]; intros w0; [done|]. apply (IH (emit e w0)). }
      destruct (Hframe (stats_effects platform (ev_size event) is_new) w)
        as (-> & -> & ->).
      repeat (split; [reflexivity|]).
      apply coarse_platform_spec.
  - apply _capture_stats_no_platform. by left.
Qed.

End StatsSpec.

(** ** The isolation wrapper *)

Section SafeExecute.

Context {A : Type}.

Lemma safe_execute_ok name (call : M A) expected w w' a :
  call w = (w', Ok a) →
  safe_execute name call expected w = (w', Ok (Some a)).
Proof. intros H. unfold safe_execute. by rewrite H. Qed.

Lemma safe_execute_raise name (call : M A) expected w w' e :
  call w = (w', Raise e) →
  safe_execute name call expected w =
    (emit (ELog (if expected e then INFO else ERROR)
             (name +:+ (if expected e then ".process_error_ignored"
                        else ".process_error"))
             [("exception", exn_name e)]) w', Ok None).
Proof. intros H. unfold safe_execute. rewrite H. by destruct (expected e). Qed.

Lemma safe_execute_never_raises name (call : M A) expected w :
  ∃ w' r, safe_execute name call expected w = (w', Ok r).
Proof.
  destruct (call w) as [w' [a|e]] eqn:H.
  - erewrite safe_execute_ok; eauto.
  - erewrite safe_execute_raise; eauto.
Qed.

End SafeExecute.

(** ** Rule callbacks *)

Section RuleCallbacks.

Lemma run_rule_callbacks_has_alert event pending has_alert w :
  ∃ w', run_rule_callbacks event pending has_alert w
        = (w', Ok (has_alert || bool_decide (pending ≠ []))).
Proof.
  revert has_alert w.
  induction pending as [|[callback futures] rest IH]; intros has_alert w.
  - exists w. simpl. unfold ret. by rewrite orb_false_r.
  - simpl. unfold bind at 1.
    destruct (safe_execute_never_raises (cb_name callback)
                (run_callback callback event futures) no_expected_errors w)
      as (w1 & r & ->).
    destruct (IH true w1) as (w' & ->).
    exists w'. by rewrite orb_true_r.
Qed.

(** C4.  After the loop over the callbacks that the rule processor
    returned, [has_alert] is true iff there was at least one
    (callback, futures) pair, whether the callbacks return or raise; for
    no callback at all it is false.  The loop itself never raises. *)
Theorem has_alert_iff_callback_returned
    (event : Event) (pending : list (Callback * Futures)) (w : World) :
  ∃ w' has_alert,
    run_rule_callbacks event pending false w = (w', Ok has_alert)
    ∧ (has_alert = true ↔ pending ≠ [])
    ∧ (has_alert = true ↔ ∃ callback futures, (callback, futures) ∈ pending)
    ∧ (pending = [] → has_alert = false ∧ w' = w).
Proof.
  destruct (run_rule_callbacks_has_alert event pending false w) as (w' & Hrun).
  exists w', (bool_decide (pending ≠ [])).
  split; [exact Hrun|]. split; [apply bool_decide_eq_true|].
  split.
  - rewrite bool_decide_eq_true. split.
    + destruct pending as [|[c f] rest]; [done|]. intros _. exists c, f. by left.
    + intros (c & f & Hin) ->. by apply elem_of_nil in Hin.
  - intros ->. split; [done|]. simpl in Hrun. unfold ret in Hrun. congruence.
Qed.

End RuleCallbacks.

(** ** The plugin entry point *)

Section PluginEntryPoint.

Variable env : Env.

Lemma find_slug_None plugin_slug (registry : list Plugin) :
  Forall (λ p, slug p ≠ plugin_slug) registry →
  find (λ p, String.eqb (slug p) plugin_slug) registry = None.
Proof.
  induction 1 as [|p rest Hp _ IH]; [done|]. simpl.
  destruct (String.eqb_spec (slug p) plugin_slug); [done|exact IH].
Qed.

Lemma find_slug_Some plugin_slug (registry : list Plugin) p :
  find (λ p, String.eqb (slug p) plugin_slug) registry = Some p →
  p ∈ registry ∧ slug p = plugin_slug.
Proof.
  induction registry as [|q rest IH]; [done|]. simpl.
  destruct (String.eqb_spec (slug q) plugin_slug) as [Heq|Hne].
  - intros [= ->]. split; [by left|done].
  - intros [Hin Hs]%IH. split; [by right|done].
Qed.

Lemma find_slug_elem_of (registry : list Plugin) p :
  p ∈ registry →
  ∃ q, find (λ p', String.eqb (slug p') (slug p)) registry = Some q
       ∧ slug q = slug p.
Proof.
  induction 1 as [p rest|p q rest _ IH]; simpl.
  - rewrite String.eqb_refl. by exists p.
  - destruct (String.eqb_spec (slug q) (slug p)) as [Heq|Hne]; [by exists q|exact IH].
Qed.

Lemma plugin_post_process_group_found plugin_slug event is_new is_regresion
    is_sample w plugin :
  find (λ p, String.eqb (slug p) plugin_slug) (plugins_all env) = Some plugin →
  plugin_post_process_group env plugin_slug event is_new is_regresion is_sample w =
    let w1 := set_scope_tags (<["project" := ev_project_id event]> (scope_tags w)) w in
    let w2 := emit (ECall (CallPostProcess (slug plugin) (ev_event_id event)
                             (g_id (ev_group event)) is_new is_regresion is_sample))
                w1 in
    match pl_post_process plugin with
    | None => (w2, Ok tt)
    | Some e =>
        (emit (ELog (if is_plugin_error e then INFO else ERROR)
                 ("post_process" +:+ (if is_plugin_error e
                                      then ".process_error_ignored"
                                      else ".process_error"))
                 [("exception", exn_name e)]) w2, Ok tt)
    end.
Proof.
  intros Hfind.
  unfold plugin_post_process_group, plugins_get, scope_set_tag, bind at 1 2.
  rewrite Hfind. unfold ret at 1. unfold bind at 1.
  destruct (pl_post_process plugin) as [e|] eqn:Hpp.
  - erewrite safe_execute_raise; [reflexivity|].
    unfold post_process, bind, effect, raise. by rewrite Hpp.
  - erewrite safe_execute_ok; [reflexivity|].
    unfold post_process, bind, effect, ret. by rewrite Hpp.
Qed.

(** C10.  [plugin_post_process_group] looks the plugin up before the
    isolation wrapper is entered.  For a slug that no registered plugin
    has, the lookup raises and the exception leaves the entry point:
    nothing is logged and no [post_process] is called.  For a
    registered slug the entry point returns normally, also when the
    plugin's [post_process] raises. *)
Theorem plugin_post_process_group_unknown_slug
    (plugin_slug : string) (event : Event) (is_new is_regresion is_sample : bool)
    (w : World) :
  Forall (λ p, slug p ≠ plugin_slug) (plugins_all env) →
  ∃ w', plugin_post_process_group env plugin_slug event is_new is_regresion
          is_sample w = (w', Raise (KeyError plugin_slug))
        ∧ trace w' = trace w
        ∧ store w' = store w
        ∧ (∀ registered, registered ∈ plugins_all env →
             ∃ w2, plugin_post_process_group env (slug registered) event is_new
                     is_regresion is_sample w = (w2, Ok tt)).
Proof.
  intros Hunknown.
  eexists. split.
  - unfold plugin_post_process_group, plugins_get, scope_set_tag, bind.
    rewrite (find_slug_None _ _ Hunknown). reflexivity.
  - split; [done|]. split; [done|].
    intros registered Hin.
    destruct (find_slug_elem_of _ _ Hin) as (q & Hq & _).
    rewrite (plugin_post_process_group_found _ _ _ _ _ _ _ Hq). simpl.
    destruct (pl_post_process q); eauto.
Qed.

End PluginEntryPoint.

Lemma plugin_post_process_group_unknown_slug_witness :
  Forall (λ p, slug p ≠ "jira") (plugins_all sample_env)
  ∧ ∃ w', plugin_post_process_group sample_env "jira" sample_event true false
            false sample_world = (w', Raise (KeyError "jira"))
          ∧ trace w' = trace sample_world.
Proof.
  assert (Forall (λ p, slug p ≠ "jira") (plugins_all sample_env)) as Hunknown.
  { apply (bool_decide_unpack _). vm_compute. exact I. }
  split; [exact Hunknown|].
  destruct (plugin_post_process_group_unknown_slug sample_env "jira" sample_event
              true false false sample_world Hunknown) as (w' & Hrun & Htrace & _).
  exists w'. split; [exact Hrun|exact Htrace].
Defined.

(** ** Service-hook fan-out *)

Section ServiceHooks.

Variable env : Env.

Lemma elem_of_allowed_events has_alert e :
  e ∈ allowed_events has_alert
  ↔ e = "event.created" ∨ (e = "event.alert" ∧ has_alert = true).
Proof.
  unfold allowed_events. destruct has_alert; simpl.
  - rewrite elem_of_cons, list_elem_of_singleton. split.
    + intros [->| ->]; [by left|by right].
    + intros [->|[-> _]]; [by left|by right].
  - rewrite list_elem_of_singleton. split.
    + intros ->. by left.
    + intros [->|[_ ?]]; [done|discriminate].
Qed.

Lemma any_allowed_subscribed allowed servicehook_id events :
  any_allowed allowed events = true ↔ subscribed allowed (servicehook_id, events).
Proof.
  unfold any_allowed, subscribed. simpl.
  rewrite existsb_exists, Exists_exists. split.
  - intros (e & Hin & He). exists e. split; [by apply list_elem_of_In|].
    by apply bool_decide_eq_true in He.
  - intros (e & Hin & He). exists e. split; [by apply list_elem_of_In|].
    by apply bool_decide_eq_true.
Qed.

Lemma dispatch_service_hooks_spec event allowed hooks w :
  dispatch_service_hooks event allowed hooks w =
    (emit_all (map (hook_delivery event) (filter (subscribed allowed) hooks)) w,
     Ok tt).
Proof.
  revert w. unfold dispatch_service_hooks.
  induction hooks as [|[servicehook_id events] rest IH]; intros w; [done|].
  simpl. unfold bind at 1.
  destruct (any_allowed allowed events) eqn:Hany; simpl.
  - rewrite filter_cons_True; [|by apply any_allowed_subscribed].
    unfold delay, effect. by rewrite IH.
  - rewrite filter_cons_False; [by rewrite IH|].
    intros Hs%any_allowed_subscribed. congruence.
Qed.

Lemma service_hooks_stage_disabled event has_alert w :
  features_has env "projects:servicehooks" (p_id (ev_project event)) = false →
  service_hooks_stage env event has_alert w = (w, Ok tt).
Proof. intros H. unfold service_hooks_stage. by rewrite H. Qed.

(** C3.  With the service-hooks feature of the project on, the allowed
    event types are event.created, and event.alert iff [has_alert].  A
    delivery is scheduled for exactly the listed hooks whose event types
    meet the allowed ones, once each and in the order of the list.  So a
    hook subscribed only to event.alert gets a delivery iff [has_alert],
    and one subscribed only to event.created gets one in either case. *)
Theorem service_hooks_fanout
    (event : Event) (has_alert : bool) (w w1 : World)
    (hooks : list (Z * list string)) :
  features_has env "projects:servicehooks" (p_id (ev_project event)) = true →
  _get_service_hooks (ev_project_id event) w = (w1, Ok (CHooks hooks)) →
  let allowed := allowed_events has_alert in
  (∀ e, e ∈ allowed ↔ e = "event.created" ∨ (e = "event.alert" ∧ has_alert = true))
  ∧ (∀ hook, subscribed allowed hook ↔ ∃ e, e ∈ hook.2 ∧ e ∈ allowed)
  ∧ (∃ w2, service_hooks_stage env event has_alert w = (w2, Ok tt)
       ∧ trace w2 = trace w1
                    ++ map (hook_delivery event) (filter (subscribed allowed) hooks)
       ∧ (∀ servicehook_id,
            hook_delivery event (servicehook_id, []) ∈ drop (length (trace w1)) (trace w2)
            ↔ ∃ events, (servicehook_id, events) ∈ hooks
                        ∧ subscribed allowed (servicehook_id, events)))
  ∧ (∀ servicehook_id,
       subscribed allowed (servicehook_id, ["event.alert"]) ↔ has_alert = true)
  ∧ (∀ servicehook_id, subscribed allowed (servicehook_id, ["event.created"])).
Proof.
  intros Hfeature Hhooks allowed. subst allowed.
  set (allowed := allowed_events has_alert).
  assert (∀ hook, subscribed allowed hook ↔ ∃ e, e ∈ hook.2 ∧ e ∈ allowed) as Hsub.
  { intros hook. unfold subscribed. by rewrite Exists_exists. }
  split; [apply elem_of_allowed_events|]. split; [exact Hsub|].
  split; [|split].
  - unfold service_hooks_stage. rewrite Hfeature. simpl.
    assert (∀ k : M unit,
              match allowed_events has_alert with [] => ret tt | _ :: _ => k end = k)
      as Hnonempty by (intros k; by destruct has_alert).
    rewrite Hnonempty. unfold bind.
    rewrite Hhooks, dispatch_service_hooks_spec. fold allowed.
    eexists. split; [reflexivity|].
    rewrite trace_emit_all. split; [reflexivity|].
    intros servicehook_id.
    rewrite drop_app_length. unfold hook_delivery at 1. simpl.
    rewrite list_elem_of_fmap. split.
    + intros ([id events] & Heq & Hin). apply list_elem_of_filter in Hin as [Hs Hin].
      unfold hook_delivery in Heq. simpl in Heq. injection Heq as ->.
      by exists events.
    + intros (events & Hin & Hs). exists (servicehook_id, events).
      split; [done|]. by apply list_elem_of_filter.
  - intros servicehook_id. rewrite Hsub. simpl. split.
    + intros (e & He%list_elem_of_singleton & Hin). subst e.
      apply elem_of_allowed_events in Hin as [Hin|[_ Hin]]; [discriminate|done].
    + intros Halert. exists "event.alert". split; [by left|].
      apply elem_of_allowed_events. by right.
  - intros servicehook_id. apply Hsub. exists "event.created".
    split; [by left|]. apply elem_of_allowed_events. by left.
Qed.

End ServiceHooks.

Lemma service_hooks_fanout_witness :
  features_has sample_env "projects:servicehooks" (p_id (ev_project sample_event))
    = true
  ∧ (_get_service_hooks (ev_project_id sample_event) sample_world).2
    = Ok (CHooks [(1, ["event.created"]); (2, ["event.alert"])])
  ∧ ∃ w2, service_hooks_stage sample_env sample_event false sample_world
          = (w2, Ok tt)
          ∧ trace w2
            = [ECacheGet "servicehooks:1:42";
               ECacheSet "servicehooks:1:42"
                 (CHooks [(1, ["event.created"]); (2, ["event.alert"])]) 60;
               hook_delivery sample_event (1, ["event.created"])].
Proof.
  split; [reflexivity|]. split; [reflexivity|].
  destruct (service_hooks_fanout sample_env sample_event false sample_world
              (_get_service_hooks (ev_project_id sample_event) sample_world).1
              [(1, ["event.created"]); (2, ["event.alert"])]
              eq_refl eq_refl) as (_ & _ & (w2 & Hrun & Htrace & _) & _).
  exists w2. split; [exact Hrun|]. rewrite Htrace. vm_compute. reflexivity.
Defined.

Section HookRegistry.

Lemma _get_service_hooks_miss project_id w :
  let cache_key := "servicehooks:1:" +:+ pretty project_id in
  (∀ v deadline, cache w !! cache_key = Some (v, deadline) → deadline ≤ now w) →
  ∃ w1, _get_service_hooks project_id w
        = (w1, Ok (CHooks (map (λ h, (hook_id h, hook_events h))
                             (filter (λ h, project_id ∈ hook_project_ids h)
                                (db_hooks (store w))))))
        ∧ store w1 = store w.
Proof.
  intros cache_key Hmiss.
  unfold _get_service_hooks, cache_get, bind at 1. fold cache_key.
  assert (match cache w !! cache_key with
          | Some (v, deadline) => if now w <? deadline then Some v else None
          | None => None
          end = None) as ->.
  { destruct (cache w !! cache_key) as [[v deadline]|] eqn:Hc; [|done].
    specialize (Hmiss v deadline eq_refl).
    destruct (Z.ltb_spec (now w) deadline); [lia|done]. }
  eexists. split; [reflexivity|done].
Qed.

Lemma _get_service_hooks_hit project_id w v deadline :
  cache w !! ("servicehooks:1:" +:+ pretty project_id) = Some (v, deadline) →
  now w < deadline →
  _get_service_hooks project_id w
  = (emit (ECacheGet ("servicehooks:1:" +:+ pretty project_id)) w, Ok v).
Proof.
  intros Hc Hlive. unfold _get_service_hooks, cache_get, bind, ret.
  rewrite Hc. by destruct (Z.ltb_spec (now w) deadline); [|lia].
Qed.

End HookRegistry.

(** ** The sampled error-hook decision *)

Section Sampling.

Variable env : Env.

Lemma _should_send_error_created_hooks_sampling project w :
  use_error_hook_sampling env = true →
  _should_send_error_created_hooks env project w =
    (set_rng_pos (S (rng_pos w)) w,
     Ok (negb (Qle_bool (error_hook_sample_rate env) (random_draws env (rng_pos w))))).
Proof.
  intros Hs. unfold _should_send_error_created_hooks, random_random, bind, ret.
  rewrite Hs. by destruct (Qle_bool _ _).
Qed.

Lemma resource_change_stage_sampled_out event is_new w :
  use_error_hook_sampling env = true →
  (error_hook_sample_rate env <= random_draws env (rng_pos w))%Q →
  ∃ w', resource_change_stage env event is_new w = (w', Ok tt)
        ∧ trace w' = trace w ++ (if is_new then [group_created event] else [])
        ∧ cache w' = cache w ∧ store w' = store w.
Proof.
  intros Hs Hle. apply Qle_bool_iff in Hle.
  unfold resource_change_stage, bind at 1.
  destruct (String.eqb (ev_type event) "error").
  - rewrite (_should_send_error_created_hooks_sampling _ _ Hs), Hle. simpl.
    unfold bind, ret. simpl. destruct is_new; simpl.
    + eexists. split; [reflexivity|]. by simpl.
    + eexists. split; [reflexivity|]. simpl. by rewrite app_nil_r.
  - unfold ret, bind. simpl. destruct is_new; simpl.
    + eexists. split; [reflexivity|]. by simpl.
    + eexists. split; [reflexivity|]. simpl. by rewrite app_nil_r.
Qed.

(** C8.  With the sampling option on, [_should_send_error_created_hooks]
    takes one value of [random.random()] and answers true iff it is
    strictly below the sample rate; it reads and writes no cache entry.
    With a sample rate of 0 the answer is false for every draw (a draw
    is never negative), the resource-change stage schedules no
    notification for sender Error, and the cache is as before. *)
Theorem sampled_decision_is_not_cached (project : Project) (w : World) :
  use_error_hook_sampling env = true →
  let draw := random_draws env (rng_pos w) in
  ∃ w' decision,
    _should_send_error_created_hooks env project w = (w', Ok decision)
    ∧ (decision = true ↔ (draw < error_hook_sample_rate env)%Q)
    ∧ rng_pos w' = S (rng_pos w)
    ∧ cache w' = cache w
    ∧ trace w' = trace w
    ∧ store w' = store w
    ∧ ((error_hook_sample_rate env == 0)%Q → (0 <= draw)%Q →
         decision = false
         ∧ ∀ event is_new,
             ∃ w2, resource_change_stage env event is_new w = (w2, Ok tt)
                   ∧ trace w2
                     = trace w ++ (if is_new then [group_created event] else [])
                   ∧ (error_created event ∉ drop (length (trace w)) (trace w2))
                   ∧ cache w2 = cache w).
Proof.
  intros Hs draw.
  rewrite (_should_send_error_created_hooks_sampling _ _ Hs). fold draw.
  eexists _, _. split; [reflexivity|]. simpl.
  split.
  - rewrite negb_true_iff, <- not_true_iff_false, Qle_bool_iff. split.
    + apply Qnot_le_lt.
    + apply Qlt_not_le.
  - repeat (split; [reflexivity|]).
    intros Hrate Hdraw.
    assert (error_hook_sample_rate env <= draw)%Q as Hle by (by rewrite Hrate).
    split.
    + apply negb_false_iff. by apply Qle_bool_iff.
    + intros event is_new.
      destruct (resource_change_stage_sampled_out event is_new w Hs Hle)
        as (w2 & Hrun & Htrace & Hcache & _).
      exists w2. split; [exact Hrun|]. split; [exact Htrace|]. split; [|exact Hcache].
      rewrite Htrace, drop_app_length.
      destruct is_new; [|apply not_elem_of_nil].
      intros Hin%list_elem_of_singleton. discriminate.
Qed.

End Sampling.

Lemma sampled_decision_is_not_cached_witness :
  use_error_hook_sampling sample_env = true
  ∧ ∃ w' decision,
      _should_send_error_created_hooks sample_env sample_project sample_world
        = (w', Ok decision)
      ∧ (decision = true ↔ (1 # 2 < 0)%Q)
      ∧ cache w' = cache sample_world
      ∧ trace w' = trace sample_world.
Proof.
  split; [reflexivity|].
  destruct (sampled_decision_is_not_cached sample_env sample_project sample_world
              eq_refl) as (w' & decision & Hrun & Hiff & _ & Hcache & Htrace & _).
  exists w', decision. repeat split; try assumption; apply Hiff.
Defined.

(** ** The dedup guard *)

Section DedupGuard.

Variable env : Env.

Lemma check_event_without_cluster event w :
  lock_cluster env = None →
  check_event_already_post_processed env event w = (w, Ok None).
Proof. intros H. unfold check_event_already_post_processed. by rewrite H. Qed.

Lemma check_event_unreachable event w cluster_key :
  lock_cluster env = Some cluster_key →
  redis_up w = false →
  check_event_already_post_processed env event w = (w, Raise ConnectionError).
Proof.
  intros Hc Hdown.
  unfold check_event_already_post_processed, redis_set_nx, bind.
  by rewrite Hc, Hdown.
Qed.

Lemma check_event_duplicate event w cluster_key :
  lock_cluster env = Some cluster_key →
  redis_up w = true →
  redis_live w (lock_key event) = true →
  check_event_already_post_processed env event w = (w, Ok (Some true)).
Proof.
  intros Hc Hup Hlive.
  unfold check_event_already_post_processed, redis_set_nx, bind, ret.
  by rewrite Hc, Hup, Hlive.
Qed.

Lemma check_event_claims event w cluster_key :
  lock_cluster env = Some cluster_key →
  redis_up w = true →
  redis_live w (lock_key event) = false →
  check_event_already_post_processed env event w =
    (set_redis (<[lock_key event := (pretty (now w), now w + 3600)]> (redis w)) w,
     Ok (Some false)).
Proof.
  intros Hc Hup Hlive.
  unfold check_event_already_post_processed, redis_set_nx, bind, ret.
  by rewrite Hc, Hup, Hlive.
Qed.

(** C6, amended.  With a lock cluster configured but unreachable, the
    exception of the redis client leaves
    [check_event_already_post_processed] and [post_process_group]: the
    world is as before, so nothing is logged and no stage has run.
    Without a lock cluster the guard answers [None], and
    [post_process_group] runs all its stages on every call. *)
Theorem dedup_guard_backend_failure
    (event : Event) (is_new is_regression is_sample is_new_group_environment : bool)
    (primary_hash : option string) (w : World) :
  (∀ cluster_key, lock_cluster env = Some cluster_key → redis_up w = false →
     check_event_already_post_processed env event w = (w, Raise ConnectionError)
     ∧ post_process_group env event is_new is_regression is_sample
         is_new_group_environment primary_hash w = (w, Raise ConnectionError))
  ∧ (lock_cluster env = None →
     check_event_already_post_processed env event w = (w, Ok None)
     ∧ post_process_group env event is_new is_regression is_sample
         is_new_group_environment primary_hash w
       = post_process_stages env event is_new is_regression is_sample
           is_new_group_environment primary_hash w).
Proof.
  split.
  - intros cluster_key Hc Hdown.
    pose proof (check_event_unreachable event w cluster_key Hc Hdown) as Hcheck.
    split; [exact Hcheck|].
    unfold post_process_group, bind. by rewrite Hcheck.
  - intros Hnone.
    pose proof (check_event_without_cluster event w Hnone) as Hcheck.
    split; [exact Hcheck|].
    unfold post_process_group, bind. by rewrite Hcheck.
Qed.

End DedupGuard.

(** C6, as the spec words it, fails: with the lock cluster configured
    and unreachable the guard does not fail open.  The call raises, no
    warning is logged and no stage runs. *)
Lemma dedup_guard_does_not_fail_open :
  lock_cluster sample_env = Some "default"
  ∧ redis_up world_redis_down = false
  ∧ post_process_group sample_env sample_event true false false false None
      world_redis_down = (world_redis_down, Raise ConnectionError)
  ∧ ¬ (∃ w', post_process_group sample_env sample_event true false false false None
               world_redis_down = (w', Ok tt)
             ∧ ∃ msg extra, ELog WARNING msg extra ∈ trace w').
Proof.
  split; [reflexivity|]. split; [reflexivity|].
  assert (post_process_group sample_env sample_event true false false false None
            world_redis_down = (world_redis_down, Raise ConnectionError)) as Hrun
    by (vm_compute; reflexivity).
  split; [exact Hrun|].
  intros (w' & Hok & _). rewrite Hrun in Hok. discriminate.
Qed.

Lemma dedup_guard_backend_failure_witness :
  lock_cluster sample_env = Some "default"
  ∧ redis_up world_redis_down = false
  ∧ lock_cluster env_without_lock = None
  ∧ post_process_group sample_env sample_event true false false false None
      world_redis_down = (world_redis_down, Raise ConnectionError)
  ∧ check_event_already_post_processed env_without_lock sample_event sample_world
    = (sample_world, Ok None).
Proof.
  split; [reflexivity|]. split; [reflexivity|]. split; [reflexivity|].
  split.
  - apply (proj1 (dedup_guard_backend_failure sample_env sample_event true false
                    false false None world_redis_down) "default" eq_refl eq_refl).
  - apply (proj2 (dedup_guard_backend_failure env_without_lock sample_event true
                    false false false None sample_world) eq_refl).
Defined.

(** ** What the stages after the guard leave alone *)

Section Frame.

Context {B : Type} (proj : World -> B).

(** [proj] looks at a component that only the redis client writes. *)
Hypothesis proj_emit : ∀ e w, proj (emit e w) = proj w.
Hypothesis proj_store : ∀ s w, proj (set_store s w) = proj w.
Hypothesis proj_cache : ∀ c w, proj (set_cache c w) = proj w.
Hypothesis proj_scope : ∀ t w, proj (set_scope_tags t w) = proj w.
Hypothesis proj_rng : ∀ n w, proj (set_rng_pos n w) = proj w.

Lemma preserves_ret {A} (a : A) : preserves proj (ret a).
Proof. by intros w. Qed.

Lemma preserves_raise {A} e : preserves proj (@raise A e).
Proof. by intros w. Qed.

Lemma preserves_bind {A C} (m : M A) (k : A -> M C) :
  preserves proj m → (∀ a, preserves proj (k a)) → preserves proj (bind m k).
Proof.
  intros Hm Hk w. unfold bind. specialize (Hm w).
  destruct (m w) as [w1 [a|e]]; simpl in *; [|done].
  by rewrite Hk.
Qed.

Lemma preserves_effect e : preserves proj (effect e).
Proof. intros w. apply proj_emit. Qed.

Lemma preserves_when b m : preserves proj m → preserves proj (when b m).
Proof. intros Hm. destruct b; [done|apply preserves_ret]. Qed.

Lemma preserves_for_each {A} (xs : list A) body :
  (∀ x, preserves proj (body x)) → preserves proj (for_each xs body).
Proof.
  intros Hbody. induction xs as [|x rest IH]; simpl.
  - apply preserves_ret.
  - by apply preserves_bind.
Qed.

Lemma preserves_try_except {A} (body : M A) caught handler :
  preserves proj body → preserves proj handler →
  preserves proj (try_except body caught handler).
Proof.
  intros Hb Hh w. unfold try_except. specialize (Hb w).
  destruct (body w) as [w1 [a|e]]; simpl in *; [done|].
  destruct (caught e); [|done]. by rewrite Hh.
Qed.

Lemma preserves_safe_execute {A} name (call : M A) expected :
  preserves proj call → preserves proj (safe_execute name call expected).
Proof.
  intros Hc w. unfold safe_execute. specialize (Hc w).
  destruct (call w) as [w1 [a|e]]; simpl in *; [done|].
  destruct (expected e); simpl; by rewrite proj_emit.
Qed.

Ltac frame_leaf :=
  let w := fresh "w" in
  intros w; simpl;
  repeat match goal with
         | |- context [match ?x with _ => _ end] => destruct x; simpl
         end;
  repeat first [rewrite proj_emit | rewrite proj_store | rewrite proj_cache
               | rewrite proj_scope | rewrite proj_rng];
  reflexivity.

Lemma preserves_cache_get key : preserves proj (cache_get key).
Proof. intros w. apply proj_emit. Qed.

Lemma preserves_cache_set key v timeout : preserves proj (cache_set key v timeout).
Proof. intros w. simpl. by rewrite proj_emit, proj_cache. Qed.

Lemma preserves_scope_set_tag key value : preserves proj (scope_set_tag key value).
Proof. intros w. apply proj_scope. Qed.

Lemma preserves_get_group_with_redirect group_id :
  preserves proj (get_group_with_redirect group_id).
Proof. unfold get_group_with_redirect. frame_leaf. Qed.

Lemma preserves_project_get_from_cache id : preserves proj (project_get_from_cache id).
Proof. unfold project_get_from_cache. frame_leaf. Qed.

Lemma preserves_organization_get_from_cache id :
  preserves proj (organization_get_from_cache id).
Proof. unfold organization_get_from_cache. frame_leaf. Qed.

Lemma preserves_snooze_get_from_cache group :
  preserves proj (snooze_get_from_cache group).
Proof. unfold snooze_get_from_cache. frame_leaf. Qed.

Lemma preserves_group_assignee_assign group owner :
  preserves proj (group_assignee_assign group owner).
Proof. unfold group_assignee_assign. frame_leaf. Qed.

Create HintDb frame.
#[local] Hint Resolve preserves_ret preserves_raise preserves_effect preserves_when
  preserves_try_except preserves_safe_execute preserves_cache_get
  preserves_cache_set preserves_scope_set_tag preserves_get_group_with_redirect
  preserves_project_get_from_cache preserves_organization_get_from_cache
  preserves_snooze_get_from_cache preserves_group_assignee_assign : frame.

(** One step through the structure of a computation. *)
Ltac frame_step :=
  lazy zeta;
  match goal with
  | |- preserves _ (bind _ _) => apply preserves_bind; [|intros ?]
  | |- preserves _ (for_each _ _) => apply preserves_for_each; intros ?
  | |- preserves _ (try_except _ _ _) => apply preserves_try_except
  | |- preserves _ (safe_execute _ _ _) => apply preserves_safe_execute
  | |- preserves _ (when _ _) => apply preserves_when
  | |- preserves _ (if ?b then _ else _) => destruct b
  | |- preserves _ (match ?x with _ => _ end) => destruct x
  | |- preserves _ _ => solve [eauto with frame]
  | |- preserves _ _ => solve [frame_leaf]
  end.

Ltac frame := repeat frame_step.

Variable env : Env.

Lemma preserves__get_service_hooks project_id :
  preserves proj (_get_service_hooks project_id).
Proof. unfold _get_service_hooks, service_hooks_of_project. frame. Qed.

Lemma preserves__should_send_error_created_hooks project :
  preserves proj (_should_send_error_created_hooks env project).
Proof.
  unfold _should_send_error_created_hooks, random_random, error_created_hook_exists.
  frame.
Qed.

Lemma preserves__capture_stats event is_new :
  preserves proj (_capture_stats event is_new).
Proof. unfold _capture_stats, metrics_incr, metrics_timing. frame. Qed.

Lemma preserves_process_snoozes group : preserves proj (process_snoozes env group).
Proof.
  unfold process_snoozes, snooze_is_valid_now, snooze_delete, group_update_status.
  frame.
Qed.

Lemma preserves_handle_owner_assignment project group event :
  preserves proj (handle_owner_assignment env project group event).
Proof.
  unfold handle_owner_assignment, assignee_set_exists, get_autoassign_owner. frame.
Qed.

Lemma preserves_run_rule_callbacks event pending has_alert :
  preserves proj (run_rule_callbacks event pending has_alert).
Proof.
  revert has_alert. induction pending as [|[callback futures] rest IH];
    intros has_alert; simpl.
  - apply preserves_ret.
  - apply preserves_bind; [|intros _; apply IH].
    apply preserves_safe_execute. unfold run_callback. frame.
Qed.

Lemma preserves_service_hooks_stage event has_alert :
  preserves proj (service_hooks_stage env event has_alert).
Proof.
  pose proof preserves__get_service_hooks.
  unfold service_hooks_stage, dispatch_service_hooks, delay.
  apply preserves_when. frame.
Qed.

Lemma preserves_resource_change_stage event is_new :
  preserves proj (resource_change_stage env event is_new).
Proof.
  pose proof preserves__should_send_error_created_hooks.
  unfold resource_change_stage, delay. frame.
Qed.

Lemma preserves_plugin_post_process_group plugin_slug event is_new is_regresion
    is_sample :
  preserves proj (plugin_post_process_group env plugin_slug event is_new
                    is_regresion is_sample).
Proof.
  unfold plugin_post_process_group, plugins_get, post_process. frame.
Qed.

Lemma preserves_post_process_stages event is_new is_regression is_sample
    is_new_group_environment primary_hash :
  preserves proj (post_process_stages env event is_new is_regression is_sample
                    is_new_group_environment primary_hash).
Proof.
  pose proof preserves__capture_stats.
  pose proof preserves_process_snoozes.
  pose proof preserves_handle_owner_assignment.
  pose proof preserves_run_rule_callbacks.
  pose proof preserves_service_hooks_stage.
  pose proof preserves_resource_change_stage.
  pose proof preserves_plugin_post_process_group.
  unfold post_process_stages, plugins_stage, rp_apply, event_processed_send_robust.
  frame.
Qed.

End Frame.

(** ** Redelivery *)

Section Idempotency.

Variable env : Env.

Lemma post_process_stages_redis event is_new is_regression is_sample
    is_new_group_environment primary_hash w :
  redis (post_process_stages env event is_new is_regression is_sample
           is_new_group_environment primary_hash w).1 = redis w.
Proof. by apply (preserves_post_process_stages redis). Qed.

Lemma lock_key_ext event event2 :
  ev_project_id event2 = ev_project_id event →
  ev_event_id event2 = ev_event_id event →
  lock_key event2 = lock_key event.
Proof. unfold lock_key. by intros -> ->. Qed.

(** A delivery that finds the lock of its event is skipped: it logs the
    skip and does nothing else. *)
Lemma post_process_group_duplicate event is_new is_regression is_sample
    is_new_group_environment primary_hash w cluster_key :
  lock_cluster env = Some cluster_key →
  redis_up w = true →
  redis_live w (lock_key event) = true →
  post_process_group env event is_new is_regression is_sample
    is_new_group_environment primary_hash w = (skipped event w, Ok tt).
Proof.
  intros Hc Hup Hlive. unfold post_process_group, bind.
  by rewrite (check_event_duplicate env event w cluster_key Hc Hup Hlive).
Qed.

(** A delivery that claims the lock leaves it in place for an hour,
    however its stages end. *)
Lemma post_process_group_claims event is_new is_regression is_sample
    is_new_group_environment primary_hash w cluster_key :
  lock_cluster env = Some cluster_key →
  redis_up w = true →
  redis_live w (lock_key event) = false →
  redis (post_process_group env event is_new is_regression is_sample
           is_new_group_environment primary_hash w).1 !! lock_key event
  = Some (pretty (now w), now w + 3600).
Proof.
  intros Hc Hup Hfree. unfold post_process_group, bind.
  rewrite (check_event_claims env event w cluster_key Hc Hup Hfree). simpl.
  rewrite post_process_stages_redis. simpl. apply lookup_insert_eq.
Qed.

(** C1.  With the lock cluster configured and reachable: the first
    delivery of an event sets the key pp:{project_id}/{event_id}, and
    the key stays for 3600 seconds.  A second delivery of the same
    (project_id, event_id) within that time, whatever its flags and
    whatever else has changed meanwhile, finds the key: it logs the skip
    at level info and returns.  The store, the cache and redis are as
    the second call found them and its only effect is that log entry; no
    metric is recorded and nothing is scheduled or signalled. *)
Theorem post_process_group_idempotent
    (cluster_key : string) (event : Event)
    (is_new is_regression is_sample is_new_group_environment : bool)
    (primary_hash : option string) (w0 w1 : World) (r1 : Result unit) :
  lock_cluster env = Some cluster_key →
  redis_up w0 = true →
  redis_live w0 (lock_key event) = false →
  post_process_group env event is_new is_regression is_sample
    is_new_group_environment primary_hash w0 = (w1, r1) →
  lock_key event = "pp:" +:+ pretty (ev_project_id event) +:+ "/" +:+ ev_event_id event
  ∧ redis w1 !! lock_key event = Some (pretty (now w0), now w0 + 3600)
  ∧ ∀ (event2 : Event) (is_new2 is_regression2 is_sample2 is_new_env2 : bool)
      (primary_hash2 : option string) (w2 : World),
      ev_project_id event2 = ev_project_id event →
      ev_event_id event2 = ev_event_id event →
      redis_up w2 = true →
      redis w2 !! lock_key event = redis w1 !! lock_key event →
      now w2 < now w0 + 3600 →
      ∃ w3, post_process_group env event2 is_new2 is_regression2 is_sample2
              is_new_env2 primary_hash2 w2 = (w3, Ok tt)
            ∧ store w3 = store w2
            ∧ cache w3 = cache w2
            ∧ redis w3 = redis w2
            ∧ trace w3 = trace w2
                         ++ [ELog INFO "post_process.skipped"
                               [("project_id", pretty (ev_project_id event2));
                                ("event_id", ev_event_id event2);
                                ("reason", "duplicate")]].
Proof.
  intros Hc Hup Hfree Hrun.
  pose proof (post_process_group_claims event is_new is_regression is_sample
                is_new_group_environment primary_hash w0 cluster_key Hc Hup Hfree)
    as Hkey.
  rewrite Hrun in Hkey. simpl in Hkey.
  split; [reflexivity|]. split; [exact Hkey|].
  intros event2 is_new2 is_regression2 is_sample2 is_new_env2 primary_hash2 w2
    Hpid Heid Hup2 Hredis Hnow.
  exists (skipped event2 w2). split; [|done].
  apply (post_process_group_duplicate _ _ _ _ _ _ _ cluster_key Hc Hup2).
  rewrite (lock_key_ext _ _ Hpid Heid). unfold redis_live.
  rewrite Hredis, Hkey. by apply Z.ltb_lt.
Qed.

End Idempotency.

Lemma post_process_group_idempotent_witness :
  lock_cluster sample_env = Some "default"
  ∧ redis_up sample_world = true
  ∧ redis_live sample_world (lock_key sample_event) = false
  ∧ ∃ w3, post_process_group sample_env sample_event true false false false None
            world_at_redelivery = (w3, Ok tt)
          ∧ store w3 = store world_at_redelivery
          ∧ non_log (trace w3) = non_log (trace world_at_redelivery).
Proof.
  split; [reflexivity|]. split; [reflexivity|].
  assert (redis_live sample_world (lock_key sample_event) = false) as Hfree
    by (vm_compute; reflexivity).
  split; [exact Hfree|].
  assert (post_process_group sample_env sample_event true false false false None
            sample_world = (first_delivery.1, first_delivery.2)) as Hfirst
    by apply surjective_pairing.
  pose proof (post_process_group_idempotent sample_env "default" sample_event
                true false false false None sample_world _ _
                eq_refl eq_refl Hfree Hfirst) as (_ & _ & Hsecond).
  assert (redis_up world_at_redelivery = true) as Hup
    by (vm_compute; reflexivity).
  assert (now world_at_redelivery < now sample_world + 3600) as Hnow
    by (vm_compute; reflexivity).
  assert (redis world_at_redelivery !! lock_key sample_event
          = redis first_delivery.1 !! lock_key sample_event) as Hredis
    by (vm_compute; reflexivity).
  destruct (Hsecond sample_event true false false false None world_at_redelivery
              eq_refl eq_refl Hup Hredis Hnow)
    as (w3 & Hrun & Hstore & _ & _ & Htrace).
  exists w3. split; [exact Hrun|]. split; [exact Hstore|].
  rewrite Htrace. unfold non_log. rewrite filter_app.
  rewrite (filter_cons_False _ (ELog _ _ _)); [|done].
  by rewrite filter_nil, app_nil_r.
Defined.

(** ** Isolation of callbacks and plugins *)

Section Isolation.

Lemma non_log_app t1 t2 : non_log (t1 ++ t2) = non_log t1 ++ non_log t2.
Proof. unfold non_log. apply filter_app. Qed.

Lemma result_rel_eq {A} (r r' : Result A) : result_rel eq r r' → r = r'.
Proof. destruct r, r'; simpl; congruence || done. Qed.

Lemma same_but_logs_refl w : same_but_logs w w.
Proof. by split. Qed.

Lemma same_but_logs_emit e w w' :
  same_but_logs w w' → same_but_logs (emit e w) (emit e w').
Proof.
  intros [Hc Ht]. split; [exact Hc|]. simpl. rewrite !non_log_app. by rewrite Ht.
Qed.

Lemma same_but_logs_log_l level msg extra w w' :
  same_but_logs w w' → same_but_logs (emit (ELog level msg extra) w) w'.
Proof.
  intros [Hc Ht]. split; [exact Hc|]. simpl. rewrite non_log_app, Ht.
  unfold non_log at 2. rewrite filter_cons_False; [|done].
  by rewrite filter_nil, app_nil_r.
Qed.

Lemma related_ret {A} (RA : A -> A -> Prop) a a' :
  RA a a' → related RA (ret a) (ret a').
Proof. intros Ha w w' Hw. by split. Qed.

Lemma related_raise {A} (RA : A -> A -> Prop) e : related RA (raise e) (raise e).
Proof. intros w w' Hw. by split. Qed.

Lemma related_bind {A C} (RA : A -> A -> Prop) (RC : C -> C -> Prop)
    (m m' : M A) (k k' : A -> M C) :
  related RA m m' →
  (∀ a a', RA a a' → related RC (k a) (k' a')) →
  related RC (bind m k) (bind m' k').
Proof.
  intros Hm Hk w w' Hw. unfold bind. destruct (Hm w w' Hw) as [Hw1 Hr].
  destruct (m w) as [w1 [a|e]], (m' w') as [w1' [a'|e']]; simpl in *; try done.
  by apply Hk.
Qed.

Lemma related_effect e : related eq (effect e) (effect e).
Proof. intros w w' Hw. split; [by apply same_but_logs_emit|done]. Qed.

Lemma related_when b m m' :
  related eq m m' → related eq (when b m) (when b m').
Proof. intros Hm. destruct b; [done|by apply related_ret]. Qed.

Lemma related_for_each {A} (xs : list A) body body' :
  (∀ x, related eq (body x) (body' x)) →
  related eq (for_each xs body) (for_each xs body').
Proof.
  intros Hbody. induction xs as [|x rest IH]; simpl.
  - by apply related_ret.
  - apply (related_bind eq); [apply Hbody|]. by intros ? ? _.
Qed.

Lemma related_try_except {A} (body body' : M A) caught handler handler' :
  related eq body body' → related eq handler handler' →
  related eq (try_except body caught handler) (try_except body' caught handler').
Proof.
  intros Hb Hh w w' Hw. unfold try_except. destruct (Hb w w' Hw) as [Hw1 Hr].
  destruct (body w) as [w1 [a|e]], (body' w') as [w1' [a'|e']]; simpl in *; try done.
  subst e'. destruct (caught e); [by apply Hh|done].
Qed.

(** Whether the isolated call raises shows in the log only. *)
Lemma related_safe_execute_quiet {A} name name' (call call' : M A)
    expected expected' :
  (∀ w w', same_but_logs w w' → same_but_logs (call w).1 (call' w').1) →
  (∀ w', ∃ w1 a, call' w' = (w1, Ok a)) →
  related (λ _ _, True) (safe_execute name call expected)
    (safe_execute name' call' expected').
Proof.
  intros Hcall Hquiet w w' Hw. unfold safe_execute.
  specialize (Hcall w w' Hw). destruct (Hquiet w') as (w1' & a' & Hq).
  rewrite Hq in *. simpl in Hcall.
  destruct (call w) as [w1 [a|e]]; simpl in *; [done|].
  destruct (expected e); simpl; (split; [|done]); by apply same_but_logs_log_l.
Qed.

Ltac rel_leaf :=
  let w := fresh "w" in
  let w' := fresh "w'" in
  let Hc := fresh "Hc" in
  let Ht := fresh "Ht" in
  intros w w' [Hc Ht];
  destruct w, w'; unfold core in Hc; simpl in Hc, Ht;
  injection Hc as -> -> -> -> -> -> ->;
  simpl;
  repeat match goal with
         | |- context [match ?x with _ => _ end] => destruct x; simpl
         end;
  (split; [split; [reflexivity|simpl; rewrite ?non_log_app; congruence]
          |reflexivity]).

Lemma related_cache_get key : related eq (cache_get key) (cache_get key).
Proof. unfold cache_get. rel_leaf. Qed.

Lemma related_cache_set key v timeout :
  related eq (cache_set key v timeout) (cache_set key v timeout).
Proof. unfold cache_set. rel_leaf. Qed.

Lemma related_scope_set_tag key value :
  related eq (scope_set_tag key value) (scope_set_tag key value).
Proof. unfold scope_set_tag. rel_leaf. Qed.

Lemma related_redis_set_nx key value ex :
  related eq (redis_set_nx key value ex) (redis_set_nx key value ex).
Proof. unfold redis_set_nx, redis_live. rel_leaf. Qed.

Lemma related_get_group_with_redirect group_id :
  related eq (get_group_with_redirect group_id) (get_group_with_redirect group_id).
Proof. unfold get_group_with_redirect. rel_leaf. Qed.

Lemma related_project_get_from_cache id :
  related eq (project_get_from_cache id) (project_get_from_cache id).
Proof. unfold project_get_from_cache. rel_leaf. Qed.

Lemma related_organization_get_from_cache id :
  related eq (organization_get_from_cache id) (organization_get_from_cache id).
Proof. unfold organization_get_from_cache. rel_leaf. Qed.

Lemma related_snooze_get_from_cache group :
  related eq (snooze_get_from_cache group) (snooze_get_from_cache group).
Proof. unfold snooze_get_from_cache. rel_leaf. Qed.

Lemma related_snooze_delete group :
  related eq (snooze_delete group) (snooze_delete group).
Proof. unfold snooze_delete. rel_leaf. Qed.

Lemma related_group_update_status group st :
  related eq (group_update_status group st) (group_update_status group st).
Proof. unfold group_update_status. rel_leaf. Qed.

Lemma related_assignee_set_exists group :
  related eq (assignee_set_exists group) (assignee_set_exists group).
Proof. unfold assignee_set_exists. rel_leaf. Qed.

Lemma related_group_assignee_assign group owner :
  related eq (group_assignee_assign group owner) (group_assignee_assign group owner).
Proof. unfold group_assignee_assign. rel_leaf. Qed.

Lemma related_service_hooks_of_project project_id :
  related eq (service_hooks_of_project project_id)
    (service_hooks_of_project project_id).
Proof. unfold service_hooks_of_project. rel_leaf. Qed.

Lemma related_error_created_hook_exists organization_id :
  related eq (error_created_hook_exists organization_id)
    (error_created_hook_exists organization_id).
Proof. unfold error_created_hook_exists. rel_leaf. Qed.

Create HintDb rel.
#[local] Hint Resolve related_raise related_effect related_cache_get
  related_cache_set related_scope_set_tag related_redis_set_nx
  related_get_group_with_redirect related_project_get_from_cache
  related_organization_get_from_cache related_snooze_get_from_cache
  related_snooze_delete related_group_update_status related_assignee_set_exists
  related_group_assignee_assign related_service_hooks_of_project
  related_error_created_hook_exists : rel.

(** One step through two computations of the same shape. *)
Ltac rel_step :=
  lazy zeta;
  match goal with
  | |- related _ (ret _) (ret _) => by apply related_ret
  | |- related _ (bind _ _) (bind _ _) =>
      apply (related_bind eq); [solve [repeat rel_step]|intros ? ? <-]
  | |- related _ (for_each _ _) (for_each _ _) => apply related_for_each; intros ?
  | |- related _ (try_except _ _ _) (try_except _ _ _) => apply related_try_except
  | |- related _ (when _ _) (when _ _) => apply related_when
  | |- related _ (if ?b then _ else _) (if ?b then _ else _) => destruct b
  | |- related _ (match ?x with _ => _ end) (match ?x with _ => _ end) => destruct x
  | |- related _ _ _ => solve [eauto with rel]
  | |- related _ _ _ => solve [rel_leaf]
  end.

Ltac rel := repeat rel_step.

Variable env : Env.

Lemma related__get_service_hooks project_id :
  related eq (_get_service_hooks project_id) (_get_service_hooks project_id).
Proof. unfold _get_service_hooks. rel. Qed.

Lemma related__capture_stats event is_new :
  related eq (_capture_stats event is_new) (_capture_stats event is_new).
Proof. unfold _capture_stats, metrics_incr, metrics_timing. rel. Qed.

Lemma related__should_send_error_created_hooks project :
  related eq (_should_send_error_created_hooks env project)
    (_should_send_error_created_hooks (quiet env) project).
Proof.
  unfold _should_send_error_created_hooks, random_random. simpl. rel.
Qed.

Lemma related_check_event_already_post_processed event :
  related eq (check_event_already_post_processed env event)
    (check_event_already_post_processed (quiet env) event).
Proof.
  unfold check_event_already_post_processed. simpl.
  destruct (lock_cluster env); [|by apply related_ret].
  assert (∀ t : Z, related eq
            (do result <- redis_set_nx (lock_key event) (pretty t) (60 * 60);
             ret (Some (negb result)))
            (do result <- redis_set_nx (lock_key event) (pretty t) (60 * 60);
             ret (Some (negb result)))) as Hset by (intros t; rel).
  intros w w' Hw.
  assert (now w' = now w) as Hnow by (destruct Hw as [Hc _]; by injection Hc).
  cbv beta. rewrite Hnow. by apply Hset.
Qed.

Lemma related_process_snoozes group :
  related eq (process_snoozes env group) (process_snoozes (quiet env) group).
Proof. unfold process_snoozes, snooze_is_valid_now. simpl. rel. Qed.

Lemma related_handle_owner_assignment project group event :
  related eq (handle_owner_assignment env project group event)
    (handle_owner_assignment (quiet env) project group event).
Proof. unfold handle_owner_assignment, get_autoassign_owner. simpl. rel. Qed.

Lemma related_rp_apply event is_new is_regression is_new_group_environment
    has_reappeared :
  related (λ pending pending', pending' = quiet_pending pending)
    (rp_apply env event is_new is_regression is_new_group_environment has_reappeared)
    (rp_apply (quiet env) event is_new is_regression is_new_group_environment
       has_reappeared).
Proof.
  unfold rp_apply. simpl. intros w w' Hw. split.
  - by apply same_but_logs_emit.
  - simpl. destruct Hw as [Hc _]. injection Hc as Hst _ _ _ Hnow _ _.
    by rewrite Hst, Hnow.
Qed.

Lemma related_run_rule_callbacks event pending has_alert :
  related eq (run_rule_callbacks event pending has_alert)
    (run_rule_callbacks event (quiet_pending pending) has_alert).
Proof.
  revert has_alert. induction pending as [|[callback futures] rest IH];
    intros has_alert; simpl.
  - by apply related_ret.
  - apply (related_bind (λ _ _, True)); [|intros _ _ _; apply IH].
    apply related_safe_execute_quiet.
    + intros w w' Hw. unfold run_callback, bind, effect. simpl.
      destruct (cb_raises callback); by apply same_but_logs_emit.
    + intros w'. by eexists _, _.
Qed.

Lemma find_slug_quiet plugin_slug (registry : list Plugin) :
  find (λ p, String.eqb (slug p) plugin_slug) (map quiet_plugin registry)
  = quiet_plugin <$> find (λ p, String.eqb (slug p) plugin_slug) registry.
Proof.
  induction registry as [|p rest IH]; [done|]. simpl.
  by destruct (String.eqb (slug p) plugin_slug).
Qed.

Lemma plugins_for_project_quiet project :
  plugins_for_project (quiet env) project
  = map quiet_plugin (plugins_for_project env project).
Proof.
  unfold plugins_for_project. simpl.
  induction (plugins_all env) as [|p rest IH]; [done|].
  simpl. rewrite !filter_cons. simpl. rewrite IH.
  by destruct (decide (pl_enabled p (p_id project) = true)).
Qed.

Lemma related_plugin_post_process_group plugin_slug event is_new is_regresion
    is_sample :
  related eq
    (plugin_post_process_group env plugin_slug event is_new is_regresion is_sample)
    (plugin_post_process_group (quiet env) plugin_slug event is_new is_regresion
       is_sample).
Proof.
  unfold plugin_post_process_group.
  apply (related_bind eq); [apply related_scope_set_tag|intros _ _ _].
  unfold plugins_get. simpl. rewrite find_slug_quiet.
  destruct (find _ (plugins_all env)) as [plugin|]; simpl.
  - unfold bind at 1 3, ret at 1 3.
    apply (related_bind (λ _ _, True)); [|intros _ _ _; by apply related_ret].
    apply related_safe_execute_quiet.
    + intros w w' Hw. unfold post_process, bind, effect. simpl.
      destruct (pl_post_process plugin); by apply same_but_logs_emit.
    + intros w'. by eexists _, _.
  - intros w w' Hw. by split.
Qed.

Lemma related_plugins_stage event is_new is_regression is_sample :
  related eq (plugins_stage env event is_new is_regression is_sample)
    (plugins_stage (quiet env) event is_new is_regression is_sample).
Proof.
  unfold plugins_stage. rewrite plugins_for_project_quiet.
  induction (plugins_for_project env (ev_project event)) as [|p rest IH]; simpl.
  - by apply related_ret.
  - apply (related_bind eq); [apply related_plugin_post_process_group|].
    intros _ _ _. exact IH.
Qed.

Lemma related_service_hooks_stage event has_alert :
  related eq (service_hooks_stage env event has_alert)
    (service_hooks_stage (quiet env) event has_alert).
Proof.
  pose proof related__get_service_hooks.
  unfold service_hooks_stage, dispatch_service_hooks, delay. simpl. rel.
Qed.

Lemma related_resource_change_stage event is_new :
  related eq (resource_change_stage env event is_new)
    (resource_change_stage (quiet env) event is_new).
Proof.
  pose proof related__should_send_error_created_hooks.
  unfold resource_change_stage, delay. rel.
Qed.

Lemma related_post_process_stages event is_new is_regression is_sample
    is_new_group_environment primary_hash :
  related eq
    (post_process_stages env event is_new is_regression is_sample
       is_new_group_environment primary_hash)
    (post_process_stages (quiet env) event is_new is_regression is_sample
       is_new_group_environment primary_hash).
Proof.
  pose proof related__capture_stats.
  pose proof related_process_snoozes.
  pose proof related_handle_owner_assignment.
  pose proof related_service_hooks_stage.
  pose proof related_resource_change_stage.
  pose proof related_plugins_stage.
  unfold post_process_stages, event_processed_send_robust. rel.
  eapply related_bind; [apply related_rp_apply|]. intros pending ? ->.
  apply (related_bind eq); [apply related_run_rule_callbacks|]. intros has_alert ? <-.
  rel.
Qed.

Lemma related_post_process_group event is_new is_regression is_sample
    is_new_group_environment primary_hash :
  related eq
    (post_process_group env event is_new is_regression is_sample
       is_new_group_environment primary_hash)
    (post_process_group (quiet env) event is_new is_regression is_sample
       is_new_group_environment primary_hash).
Proof.
  pose proof related_check_event_already_post_processed.
  pose proof related_post_process_stages.
  unfold post_process_group, logger_info. rel.
Qed.

End Isolation.

Section Invocations.

Variable env : Env.

Lemma invocations_app t1 t2 : invocations (t1 ++ t2) = invocations t1 ++ invocations t2.
Proof. unfold invocations. apply omap_app. Qed.

Lemma safe_execute_run_callback callback event futures w :
  ∃ w' r,
    safe_execute (cb_name callback) (run_callback callback event futures)
      no_expected_errors w = (w', Ok r)
    ∧ core w' = core w
    ∧ invocations (trace w')
      = invocations (trace w)
        ++ [CallCallback (cb_name callback) (ev_event_id event) futures].
Proof.
  unfold safe_execute, run_callback, bind, effect.
  destruct (cb_raises callback) as [e|]; simpl.
  - eexists _, _. split; [reflexivity|]. split; [done|]. simpl.
    by rewrite !invocations_app, app_nil_r.
  - eexists _, _. split; [reflexivity|]. split; [done|]. simpl.
    by rewrite invocations_app.
Qed.

Lemma run_rule_callbacks_invocations event pending has_alert w :
  ∃ w' has_alert',
    run_rule_callbacks event pending has_alert w = (w', Ok has_alert')
    ∧ core w' = core w
    ∧ invocations (trace w')
      = invocations (trace w)
        ++ map (λ cf, CallCallback (cb_name cf.1) (ev_event_id event) cf.2) pending.
Proof.
  revert has_alert w.
  induction pending as [|[callback futures] rest IH]; intros has_alert w; simpl.
  - exists w, has_alert. by rewrite app_nil_r.
  - destruct (safe_execute_run_callback callback event futures w)
      as (w1 & r & Hrun & Hcore & Hinv).
    destruct (IH true w1) as (w' & has_alert' & Hrest & Hcore' & Hinv').
    exists w', has_alert'. unfold bind at 1. rewrite Hrun.
    split; [exact Hrest|]. split; [congruence|].
    rewrite Hinv', Hinv. by rewrite <- app_assoc.
Qed.

Lemma plugins_for_project_registered project p :
  p ∈ plugins_for_project env project → p ∈ plugins_all env.
Proof. unfold plugins_for_project. by intros [_ Hin]%list_elem_of_filter. Qed.

Lemma plugins_loop_invocations event is_new is_regression is_sample
    (enabled : list Plugin) w :
  (∀ p, p ∈ enabled → p ∈ plugins_all env) →
  ∃ w', for_each enabled (λ plugin,
          plugin_post_process_group env (slug plugin) event is_new is_regression
            is_sample) w = (w', Ok tt)
        ∧ store w' = store w
        ∧ invocations (trace w')
          = invocations (trace w)
            ++ map (λ p, CallPostProcess (slug p) (ev_event_id event)
                           (g_id (ev_group event)) is_new is_regression is_sample)
                enabled.
Proof.
  revert w. induction enabled as [|p rest IH]; intros w Hreg; simpl.
  - exists w. by rewrite app_nil_r.
  - destruct (find_slug_elem_of (plugins_all env) p) as (q & Hq & Hslug).
    { apply Hreg. by left. }
    unfold bind at 1.
    rewrite (plugin_post_process_group_found env _ _ _ _ _ _ _ Hq).
    assert (∃ w1, (let w1 := set_scope_tags (<["project" := ev_project_id event]>
                                               (scope_tags w)) w in
                   let w2 := emit (ECall (CallPostProcess (slug q) (ev_event_id event)
                                 (g_id (ev_group event)) is_new is_regression
                                 is_sample)) w1 in
                   match pl_post_process q with
                   | None => (w2, Ok tt)
                   | Some e =>
                       (emit (ELog (if is_plugin_error e then INFO else ERROR)
                                ("post_process" +:+
                                 (if is_plugin_error e then ".process_error_ignored"
                                  else ".process_error"))
                                [("exception", exn_name e)]) w2, Ok tt)
                   end) = (w1, Ok tt)
                ∧ store w1 = store w
                ∧ invocations (trace w1)
                  = invocations (trace w)
                    ++ [CallPostProcess (slug p) (ev_event_id event)
                          (g_id (ev_group event)) is_new is_regression is_sample])
      as (w1 & -> & Hstore & Hinv).
    { rewrite Hslug. simpl. destruct (pl_post_process q); simpl.
      - eexists. split; [reflexivity|]. split; [done|]. simpl.
        by rewrite !invocations_app, app_nil_r.
      - eexists. split; [reflexivity|]. split; [done|]. simpl.
        by rewrite invocations_app. }
    destruct (IH w1) as (w' & Hrest & Hstore' & Hinv').
    { intros p' Hin. apply Hreg. by right. }
    exists w'. split; [exact Hrest|]. split; [congruence|].
    rewrite Hinv', Hinv. by rewrite <- app_assoc.
Qed.

End Invocations.

(** C5.  Rule callbacks and plugin [post_process] calls are run
    through [safe_execute]. Whatever they raise changes nothing but the
    log: [post_process_group] ends with the same result, the same store,
    cache, redis, scope and the same effects in the same order (metrics,
    cache traffic, calls, scheduled notifications, the completion
    signal) as in the deployment where no callback and no plugin raises.
    Every callback the rule processor returned is called, in order, and
    the loop does not raise; every plugin enabled for the project has
    its [post_process] called, in order, and the loop does not raise.
    A plugin that raises PluginError is logged as an expected failure
    (level info), any other exception as an error. *)
Theorem callbacks_and_plugins_are_isolated
    (env : Env) (event : Event)
    (is_new is_regression is_sample is_new_group_environment : bool)
    (primary_hash : option string) (w : World) :
  (let raising := post_process_group env event is_new is_regression is_sample
                    is_new_group_environment primary_hash w in
   let calm := post_process_group (quiet env) event is_new is_regression is_sample
                 is_new_group_environment primary_hash w in
   raising.2 = calm.2
   ∧ core raising.1 = core calm.1
   ∧ non_log (trace raising.1) = non_log (trace calm.1))
  ∧ (∀ pending w0, ∃ w1 has_alert,
       run_rule_callbacks event pending false w0 = (w1, Ok has_alert)
       ∧ core w1 = core w0
       ∧ invocations (trace w1)
         = invocations (trace w0)
           ++ map (λ cf, CallCallback (cb_name cf.1) (ev_event_id event) cf.2)
               pending)
  ∧ (∀ w0, ∃ w1,
       plugins_stage env event is_new is_regression is_sample w0 = (w1, Ok tt)
       ∧ store w1 = store w0
       ∧ invocations (trace w1)
         = invocations (trace w0)
           ++ map (λ p, CallPostProcess (slug p) (ev_event_id event)
                          (g_id (ev_group event)) is_new is_regression is_sample)
               (plugins_for_project env (ev_project event)))
  ∧ (∀ plugin e w0 w1,
       plugins_get env (slug plugin) w0 = (w0, Ok plugin) →
       pl_post_process plugin = Some e →
       plugin_post_process_group env (slug plugin) event is_new is_regression
         is_sample w0 = (w1, Ok tt) →
       last (trace w1)
       = Some (ELog (if is_plugin_error e then INFO else ERROR)
                 ("post_process" +:+ (if is_plugin_error e
                                      then ".process_error_ignored"
                                      else ".process_error"))
                 [("exception", exn_name e)])
       ∧ (is_plugin_error e = true ↔ ∃ msg, e = PluginError msg)).
Proof.
  split; [|split; [|split; [|]]].
  - intros raising calm.
    destruct (related_post_process_group env event is_new is_regression is_sample
                is_new_group_environment primary_hash w w (same_but_logs_refl w))
      as [[Hcore Htrace] Hres].
    split; [|by split]. by apply result_rel_eq.
  - intros pending w0. apply run_rule_callbacks_invocations.
  - intros w0. unfold plugins_stage. apply plugins_loop_invocations.
    apply plugins_for_project_registered.
  - intros plugin e w0 w1 Hget Hraises Hrun.
    assert (find (λ p, String.eqb (slug p) (slug plugin)) (plugins_all env)
            = Some plugin) as Hfind.
    { unfold plugins_get in Hget.
      destruct (find _ (plugins_all env)); [|discriminate].
      injection Hget as ->. done. }
    rewrite (plugin_post_process_group_found env _ _ _ _ _ _ _ Hfind) in Hrun.
    simpl in Hrun. rewrite Hraises in Hrun. injection Hrun as <-.
    split; [simpl; by rewrite last_snoc|].
    destruct e; simpl; split; try done; try (intros [msg' ?]; done).
    intros _. by eexists.
Qed.

Lemma callbacks_and_plugins_are_isolated_witness :
  plugins_get sample_env (slug failing_plugin) sample_world
    = (sample_world, Ok failing_plugin)
  ∧ pl_post_process failing_plugin = Some (PluginError "rate limited")
  ∧ (post_process_group sample_env sample_event true false false false None
       sample_world).2
    = (post_process_group (quiet sample_env) sample_event true false false false
         None sample_world).2
  ∧ ∃ w1, plugin_post_process_group sample_env (slug failing_plugin) sample_event
            true false false sample_world = (w1, Ok tt)
          ∧ last (trace w1)
            = Some (ELog INFO "post_process.process_error_ignored"
                      [("exception", "PluginError")]).
Proof.
  split; [reflexivity|]. split; [reflexivity|].
  destruct (callbacks_and_plugins_are_isolated sample_env sample_event true false
              false false None sample_world) as ((Hres & _) & _ & _ & Hplugin).
  split; [exact Hres|].
  eexists. split; [vm_compute; reflexivity|].
  eapply (Hplugin failing_plugin (PluginError "rate limited") sample_world);
    [reflexivity|reflexivity|vm_compute; reflexivity].
Defined.

(** * Further properties of the module *)

(** ** The two caches of the hook registry *)

Section HookCaches.

Lemma cache_get_spec key w :
  cache_get key w = (emit (ECacheGet key) w, Ok (cache_lookup w key)).
Proof. reflexivity. Qed.

Lemma cache_lookup_emit e w key : cache_lookup (emit e w) key = cache_lookup w key.
Proof. reflexivity. Qed.

Lemma cache_lookup_live w key v deadline :
  cache w !! key = Some (v, deadline) → now w < deadline →
  cache_lookup w key = Some v.
Proof.
  intros Hc Hlive. unfold cache_lookup. rewrite Hc.
  by destruct (Z.ltb_spec (now w) deadline); [|lia].
Qed.

Lemma cache_lookup_expired w key v deadline :
  cache w !! key = Some (v, deadline) → deadline ≤ now w →
  cache_lookup w key = None.
Proof.
  intros Hc Hdead. unfold cache_lookup. rewrite Hc.
  by destruct (Z.ltb_spec (now w) deadline); [lia|].
Qed.

Lemma _get_service_hooks_on_miss project_id w :
  cache_lookup w (hooks_cache_key project_id) = None →
  _get_service_hooks project_id w =
    (emit (ECacheSet (hooks_cache_key project_id)
             (CHooks (listed_hooks project_id (store w))) 60)
       (set_cache (<[hooks_cache_key project_id :=
                       (CHooks (listed_hooks project_id (store w)), now w + 60)]>
                     (cache w))
          (emit (ECacheGet (hooks_cache_key project_id)) w)),
     Ok (CHooks (listed_hooks project_id (store w)))).
Proof.
  intros Hmiss. unfold _get_service_hooks, bind at 1.
  rewrite cache_get_spec. fold (hooks_cache_key project_id). rewrite Hmiss.
  reflexivity.
Qed.

Lemma _get_service_hooks_on_hit project_id w v :
  cache_lookup w (hooks_cache_key project_id) = Some v →
  _get_service_hooks project_id w
  = (emit (ECacheGet (hooks_cache_key project_id)) w, Ok v).
Proof.
  intros Hhit. unfold _get_service_hooks, bind at 1.
  rewrite cache_get_spec. fold (hooks_cache_key project_id). by rewrite Hhit.
Qed.

(** X1.  A hook list that [_get_service_hooks] had to compute is the
    list of the hooks of the project in the store, and it is the answer
    of every lookup during the next 60 seconds, whatever happens to the
    hooks in the store meanwhile: such a lookup reads the cache only. *)
Theorem hook_list_is_cached_for_60_seconds
    (project_id : Z) (w w1 w2 : World) (r1 : Result CacheVal) :
  cache_lookup w (hooks_cache_key project_id) = None →
  _get_service_hooks project_id w = (w1, r1) →
  cache w2 !! hooks_cache_key project_id = cache w1 !! hooks_cache_key project_id →
  now w2 < now w + 60 →
  r1 = Ok (CHooks (listed_hooks project_id (store w)))
  ∧ ∃ w3, _get_service_hooks project_id w2 = (w3, r1)
          ∧ store w3 = store w2
          ∧ cache w3 = cache w2
          ∧ trace w3 = trace w2 ++ [ECacheGet (hooks_cache_key project_id)].
Proof.
  intros Hmiss Hfirst Hsame Hsoon.
  rewrite (_get_service_hooks_on_miss _ _ Hmiss) in Hfirst.
  injection Hfirst as <- <-. simpl in Hsame. rewrite lookup_insert_eq in Hsame.
  split; [reflexivity|].
  rewrite (_get_service_hooks_on_hit project_id w2
             (CHooks (listed_hooks project_id (store w)))).
  - by eexists.
  - by apply (cache_lookup_live _ _ _ _ Hsame).
Qed.

(** X2.  Once the 60 seconds of a cached hook list are over, a lookup
    goes back to the store: it answers with the hooks the project has
    then and caches that list for another 60 seconds. *)
Theorem hook_list_is_refreshed_after_60_seconds
    (project_id : Z) (w w1 w2 : World) (r1 : Result CacheVal) :
  cache_lookup w (hooks_cache_key project_id) = None →
  _get_service_hooks project_id w = (w1, r1) →
  cache w2 !! hooks_cache_key project_id = cache w1 !! hooks_cache_key project_id →
  now w + 60 ≤ now w2 →
  ∃ w3, _get_service_hooks project_id w2
        = (w3, Ok (CHooks (listed_hooks project_id (store w2))))
        ∧ store w3 = store w2
        ∧ cache w3 !! hooks_cache_key project_id
          = Some (CHooks (listed_hooks project_id (store w2)), now w2 + 60).
Proof.
  intros Hmiss Hfirst Hsame Hlate.
  rewrite (_get_service_hooks_on_miss _ _ Hmiss) in Hfirst.
  injection Hfirst as <- <-. simpl in Hsame. rewrite lookup_insert_eq in Hsame.
  rewrite (_get_service_hooks_on_miss project_id w2).
  - eexists. split; [reflexivity|]. split; [done|]. simpl. apply lookup_insert_eq.
  - by apply (cache_lookup_expired _ _ _ _ Hsame).
Qed.

End HookCaches.

Lemma hook_list_is_cached_for_60_seconds_witness :
  cache_lookup sample_world (hooks_cache_key 42) = None
  ∧ now (world_hooks_removed 10) < now sample_world + 60
  ∧ listed_hooks 42 (store (world_hooks_removed 10)) = []
  ∧ ∃ w3, _get_service_hooks 42 (world_hooks_removed 10)
          = (w3, Ok (CHooks [(1, ["event.created"]); (2, ["event.alert"])])).
Proof.
  assert (cache_lookup sample_world (hooks_cache_key 42) = None) as Hmiss
    by (vm_compute; reflexivity).
  assert (now (world_hooks_removed 10) < now sample_world + 60) as Hsoon
    by (vm_compute; reflexivity).
  assert (cache (world_hooks_removed 10) !! hooks_cache_key 42
          = cache hooks_first_lookup.1 !! hooks_cache_key 42) as Hsame
    by (vm_compute; reflexivity).
  split; [exact Hmiss|]. split; [exact Hsoon|]. split; [vm_compute; reflexivity|].
  destruct (hook_list_is_cached_for_60_seconds 42 sample_world
              hooks_first_lookup.1 (world_hooks_removed 10) hooks_first_lookup.2
              Hmiss (surjective_pairing _) Hsame Hsoon) as (Hr1 & w3 & Hrun & _).
  exists w3. rewrite Hrun, Hr1. vm_compute. reflexivity.
Defined.

Lemma hook_list_is_refreshed_after_60_seconds_witness :
  cache_lookup sample_world (hooks_cache_key 42) = None
  ∧ now sample_world + 60 ≤ now (world_hooks_removed 61)
  ∧ ∃ w3, _get_service_hooks 42 (world_hooks_removed 61) = (w3, Ok (CHooks [])).
Proof.
  assert (cache_lookup sample_world (hooks_cache_key 42) = None) as Hmiss
    by (vm_compute; reflexivity).
  assert (now sample_world + 60 ≤ now (world_hooks_removed 61)) as Hlate
    by (vm_compute; discriminate).
  assert (cache (world_hooks_removed 61) !! hooks_cache_key 42
          = cache hooks_first_lookup.1 !! hooks_cache_key 42) as Hsame
    by (vm_compute; reflexivity).
  split; [exact Hmiss|]. split; [exact Hlate|].
  destruct (hook_list_is_refreshed_after_60_seconds 42 sample_world
              hooks_first_lookup.1 (world_hooks_removed 61) hooks_first_lookup.2
              Hmiss (surjective_pairing _) Hsame Hlate) as (w3 & Hrun & _).
  exists w3. rewrite Hrun. vm_compute. reflexivity.
Defined.

Section ErrorHookDecision.

Variable env : Env.

Lemma error_created_hook_exists_spec organization_id w :
  ∃ found, error_created_hook_exists organization_id w = (w, Ok found)
           ∧ (found = true ↔ has_error_created_hook organization_id (store w)).
Proof.
  unfold error_created_hook_exists, has_error_created_hook.
  eexists. split; [reflexivity|].
  rewrite existsb_exists. split.
  - intros (h & Hin & Hh). apply andb_true_iff in Hh as [Ho He].
    exists h. split; [by apply list_elem_of_In|].
    split; [by apply bool_decide_eq_true in Ho|by apply bool_decide_eq_true in He].
  - intros (h & Hin & Ho & He). exists h. split; [by apply list_elem_of_In|].
    apply andb_true_iff. split; by apply bool_decide_eq_true.
Qed.

Lemma _should_send_error_created_hooks_on_hit project w v :
  use_error_hook_sampling env = false →
  cache_lookup w (error_hooks_cache_key (p_id project)) = Some v →
  _should_send_error_created_hooks env project w
  = (emit (ECacheGet (error_hooks_cache_key (p_id project))) w, Ok (truthy v)).
Proof.
  intros Hs Hhit. unfold _should_send_error_created_hooks. rewrite Hs.
  lazy beta iota zeta. fold (error_hooks_cache_key (p_id project)).
  unfold bind at 1. by rewrite cache_get_spec, Hhit.
Qed.

Lemma _should_send_error_created_hooks_caches project w w1 decision :
  use_error_hook_sampling env = false →
  cache_lookup w (error_hooks_cache_key (p_id project)) = None →
  _should_send_error_created_hooks env project w = (w1, Ok decision) →
  cache w1 !! error_hooks_cache_key (p_id project)
  = Some (CInt (if decision then 1 else 0), now w + 60).
Proof.
  intros Hs Hmiss. unfold _should_send_error_created_hooks. rewrite Hs.
  lazy beta iota zeta. fold (error_hooks_cache_key (p_id project)).
  unfold bind at 1. rewrite cache_get_spec, Hmiss.
  unfold bind at 1, organization_get_from_cache. simpl.
  destruct (db_organizations (store w) !! p_organization_id project) as [org|];
    [|discriminate].
  destruct (features_has env "organizations:integrations-event-hooks" (org_id org));
    simpl.
  - destruct (error_created_hook_exists_spec (org_id org)
                (emit (ECacheGet (error_hooks_cache_key (p_id project))) w))
      as (found & Hfound & _).
    unfold bind at 1. rewrite Hfound. unfold bind, cache_set, ret. simpl.
    intros [= <- <-]. simpl. by rewrite lookup_insert_eq.
  - unfold bind, cache_set, ret. simpl.
    intros [= <- <-]. simpl. by rewrite lookup_insert_eq.
Qed.

(** X3.  Without sampling and without a cached decision,
    [_should_send_error_created_hooks] decides from the store: it raises
    if the organization of the project is gone (and caches nothing);
    otherwise the answer is true iff the organization has the
    integrations-event-hooks feature and one of its hooks subscribes to
    error.created, and the answer is cached as 1 or 0 for 60 seconds.
    No random number is drawn and the store is not written. *)
Theorem error_hook_decision_on_miss (project : Project) (w : World) :
  use_error_hook_sampling env = false →
  cache_lookup w (error_hooks_cache_key (p_id project)) = None →
  match db_organizations (store w) !! p_organization_id project with
  | None =>
      _should_send_error_created_hooks env project w
      = (emit (ECacheGet (error_hooks_cache_key (p_id project))) w,
         Raise (DoesNotExist "Organization"))
  | Some org =>
      ∃ w1 decision,
        _should_send_error_created_hooks env project w = (w1, Ok decision)
        ∧ (decision = true
           ↔ features_has env "organizations:integrations-event-hooks" (org_id org)
               = true
             ∧ has_error_created_hook (org_id org) (store w))
        ∧ cache w1 !! error_hooks_cache_key (p_id project)
          = Some (CInt (if decision then 1 else 0), now w + 60)
        ∧ store w1 = store w
        ∧ rng_pos w1 = rng_pos w
  end.
Proof.
  intros Hs Hmiss.
  destruct (db_organizations (store w) !! p_organization_id project) as [org|]
    eqn:Horg;
    unfold _should_send_error_created_hooks; rewrite Hs;
    lazy beta iota zeta; fold (error_hooks_cache_key (p_id project));
    unfold bind at 1; rewrite cache_get_spec, Hmiss;
    unfold bind at 1, organization_get_from_cache; simpl; rewrite Horg;
    [|reflexivity].
  destruct (features_has env "organizations:integrations-event-hooks" (org_id org))
    eqn:Hfeature; simpl.
  - destruct (error_created_hook_exists_spec (org_id org)
                (emit (ECacheGet (error_hooks_cache_key (p_id project))) w))
      as (found & Hfound & Hiff).
    unfold bind at 1. rewrite Hfound.
    eexists _, found. split; [reflexivity|]. simpl in Hiff. split.
    + rewrite Hiff. split; [by intros ?|by intros [_ ?]].
    + split; [|done]. simpl. rewrite lookup_insert_eq. by destruct found.
  - eexists _, false. split; [reflexivity|]. split.
    + split; [done|by intros [? _]].
    + split; [|done]. simpl. by rewrite lookup_insert_eq.
Qed.

End ErrorHookDecision.

(** X4.  A decision that [_should_send_error_created_hooks] computed
    is repeated by every call during the next 60 seconds, whatever has
    become of the feature flag, the organization or its hooks: such a
    call reads the cache only. *)
Theorem error_hook_decision_is_cached_for_60_seconds
    (env env2 : Env) (project : Project) (w w1 w2 : World) (decision : bool) :
  use_error_hook_sampling env = false →
  use_error_hook_sampling env2 = false →
  cache_lookup w (error_hooks_cache_key (p_id project)) = None →
  _should_send_error_created_hooks env project w = (w1, Ok decision) →
  cache w2 !! error_hooks_cache_key (p_id project)
    = cache w1 !! error_hooks_cache_key (p_id project) →
  now w2 < now w + 60 →
  ∃ w3, _should_send_error_created_hooks env2 project w2 = (w3, Ok decision)
        ∧ store w3 = store w2
        ∧ cache w3 = cache w2
        ∧ rng_pos w3 = rng_pos w2
        ∧ trace w3 = trace w2 ++ [ECacheGet (error_hooks_cache_key (p_id project))].
Proof.
  intros Hs Hs2 Hmiss Hfirst Hsame Hsoon.
  rewrite (_should_send_error_created_hooks_caches env project w w1 decision
             Hs Hmiss Hfirst) in Hsame.
  rewrite (_should_send_error_created_hooks_on_hit env2 project w2
             (CInt (if decision then 1 else 0)) Hs2).
  - exists (emit (ECacheGet (error_hooks_cache_key (p_id project))) w2).
    split; [by destruct decision|done].
  - by apply (cache_lookup_live _ _ _ _ Hsame).
Qed.

Lemma error_hook_decision_on_miss_witness :
  use_error_hook_sampling env_without_sampling = false
  ∧ cache_lookup sample_world (error_hooks_cache_key (p_id sample_project)) = None
  ∧ ∃ w1 decision,
      _should_send_error_created_hooks env_without_sampling sample_project
        sample_world = (w1, Ok decision)
      ∧ store w1 = store sample_world
      ∧ rng_pos w1 = rng_pos sample_world.
Proof.
  assert (cache_lookup sample_world (error_hooks_cache_key (p_id sample_project))
          = None) as Hmiss by (vm_compute; reflexivity).
  split; [reflexivity|]. split; [exact Hmiss|].
  pose proof (error_hook_decision_on_miss env_without_sampling sample_project
                sample_world eq_refl Hmiss) as Hcomputed.
  assert (db_organizations (store sample_world) !! p_organization_id sample_project
          = Some {| org_id := 1 |}) as Horg by (vm_compute; reflexivity).
  rewrite Horg in Hcomputed.
  destruct Hcomputed as (w1 & decision & Hrun & _ & _ & Hstore & Hrng).
  by exists w1, decision.
Defined.

Lemma error_hook_decision_is_cached_for_60_seconds_witness :
  use_error_hook_sampling env_without_sampling = false
  ∧ cache_lookup sample_world (error_hooks_cache_key (p_id sample_project)) = None
  ∧ now (world_decision_later 59) < now sample_world + 60
  ∧ ∃ w3, _should_send_error_created_hooks env_without_sampling sample_project
            (world_decision_later 59) = (w3, Ok false)
          ∧ store w3 = store (world_decision_later 59).
Proof.
  assert (cache_lookup sample_world (error_hooks_cache_key (p_id sample_project))
          = None) as Hmiss by (vm_compute; reflexivity).
  assert (now (world_decision_later 59) < now sample_world + 60) as Hsoon
    by (vm_compute; reflexivity).
  assert (_should_send_error_created_hooks env_without_sampling sample_project
            sample_world = (decision_first.1, Ok false)) as Hfirst
    by (vm_compute; reflexivity).
  assert (cache (world_decision_later 59)
            !! error_hooks_cache_key (p_id sample_project)
          = cache decision_first.1 !! error_hooks_cache_key (p_id sample_project))
    as Hsame by (vm_compute; reflexivity).
  split; [reflexivity|]. split; [exact Hmiss|]. split; [exact Hsoon|].
  destruct (error_hook_decision_is_cached_for_60_seconds env_without_sampling
              env_without_sampling sample_project sample_world decision_first.1
              (world_decision_later 59) false eq_refl eq_refl Hmiss Hfirst Hsame
              Hsoon) as (w3 & Hrun & Hstore & _).
  by exists w3.
Defined.

(** ** Keys *)

Section Keys.

Lemma pretty_N_char_digit x : is_digit (pretty_N_char x).
Proof.
  unfold is_digit, pretty_N_char.
  repeat case_match; repeat (first [by left | right]).
Qed.

Lemma pretty_N_go_chars c x s :
  string_In c (pretty_N_go x s) → is_digit c ∨ string_In c s.
Proof.
  revert s. induction (N.lt_wf_0 x) as [x _ IH]; intros s.
  assert (x = 0 ∨ 0 < x)%N as [->|Hpos] by lia.
  - rewrite pretty_N_go_0. by right.
  - rewrite pretty_N_go_step by done.
    intros [Hd|[->|Hin]]%IH; [by left| |by right|by apply N.div_lt].
    left. apply pretty_N_char_digit.
Qed.

Lemma string_In_app c a b : string_In c (a +:+ b) ↔ string_In c a ∨ string_In c b.
Proof.
  induction a as [|x a IH]; [simpl; tauto|].
  rewrite append_cons. simpl. rewrite IH. tauto.
Qed.

Lemma pretty_Z_chars c (z : Z) :
  string_In c (pretty z) → is_digit c ∨ c = "-"%char.
Proof.
  assert (∀ p : positive, string_In c (pretty p) → is_digit c) as Hpos.
  { intros p. unfold pretty, pretty_positive, pretty, pretty_N.
    case_decide; [done|]. intros [?|[]]%pretty_N_go_chars. done. }
  destruct z as [|p|p]; unfold pretty, pretty_Z.
  - simpl. intros [->|[]]. left. by left.
  - intros ?%Hpos. by left.
  - intros [[->|[]]|?%Hpos]%string_In_app; [by right|by left].
Qed.

Lemma pretty_Z_no_slash (z : Z) : ¬ string_In "/"%char (pretty z).
Proof.
  intros [Hd| ?]%pretty_Z_chars; [|done].
  unfold is_digit in Hd. repeat (apply elem_of_cons in Hd as [?|Hd]; [done|]).
  by apply elem_of_nil in Hd.
Qed.

Lemma append_sep_inj (sep : ascii) (a b x y : string) :
  ¬ string_In sep a → ¬ string_In sep b →
  a +:+ String sep x = b +:+ String sep y → a = b ∧ x = y.
Proof.
  revert b. induction a as [|c a IH]; intros [|d b] Ha Hb Heq;
    rewrite ?append_cons in Heq; simpl in *.
  - by injection Heq as ->.
  - injection Heq as -> _. tauto.
  - injection Heq as -> _. tauto.
  - injection Heq as -> Heq. destruct (IH b) as [-> ->]; [tauto|tauto|done|done].
Qed.

Lemma lock_key_differs (event other : Event) :
  ev_project_id other ≠ ev_project_id event
  ∨ ev_event_id other ≠ ev_event_id event →
  lock_key event ≠ lock_key other.
Proof.
  intros Hother. unfold lock_key. rewrite !append_cons. intros [= Heq].
  change ("/" +:+ ev_event_id event) with (String "/" (ev_event_id event)) in Heq.
  change ("/" +:+ ev_event_id other) with (String "/" (ev_event_id other)) in Heq.
  apply append_sep_inj in Heq as [Hp He]; [|apply pretty_Z_no_slash..].
  destruct Hother as [Hne|Hne]; apply Hne; [|done].
  symmetry. by apply (inj pretty).
Qed.

Lemma hooks_key_ne_error_key (project_id other_id : Z) :
  hooks_cache_key project_id ≠ error_hooks_cache_key other_id.
Proof.
  unfold hooks_cache_key, error_hooks_cache_key. rewrite !append_cons.
  intros [= ?].
Qed.

(** X5.  The lock key tells events apart: two events have the same
    key iff they have the same project id and the same event id. *)
Theorem lock_key_inj (event1 event2 : Event) :
  lock_key event1 = lock_key event2
  ↔ ev_project_id event1 = ev_project_id event2
    ∧ ev_event_id event1 = ev_event_id event2.
Proof.
  split.
  - unfold lock_key. rewrite !append_cons. intros [= Heq].
    change ("/" +:+ ev_event_id event1) with (String "/" (ev_event_id event1)) in Heq.
    change ("/" +:+ ev_event_id event2) with (String "/" (ev_event_id event2)) in Heq.
    apply append_sep_inj in Heq as [Hp He]; [|apply pretty_Z_no_slash..].
    split; [by apply (inj pretty)|done].
  - intros [Hp He]. by apply lock_key_ext.
Qed.

(** X6.  The hook-list cache and the error-hook decision cache never
    share a key, and each has one key per project. *)
Theorem hook_cache_keys_are_distinct (project_id other_id : Z) :
  hooks_cache_key project_id ≠ error_hooks_cache_key other_id
  ∧ (hooks_cache_key project_id = hooks_cache_key other_id ↔ project_id = other_id)
  ∧ (error_hooks_cache_key project_id = error_hooks_cache_key other_id
     ↔ project_id = other_id).
Proof.
  split; [|split].
  - unfold hooks_cache_key, error_hooks_cache_key. rewrite !append_cons.
    intros [= ?].
  - split; [|by intros ->]. unfold hooks_cache_key.
    intros Heq%(inj (String.append _)). by apply (inj pretty).
  - split; [|by intros ->]. unfold error_hooks_cache_key.
    intros Heq%(inj (String.append _)). by apply (inj pretty).
Qed.

End Keys.

(** ** The dedup window *)

Section DedupWindow.

Variable env : Env.

Lemma post_process_group_redis event is_new is_regression is_sample
    is_new_group_environment primary_hash w :
  redis (post_process_group env event is_new is_regression is_sample
           is_new_group_environment primary_hash w).1 = redis w
  ∨ redis (post_process_group env event is_new is_regression is_sample
             is_new_group_environment primary_hash w).1
    = <[lock_key event := (pretty (now w), now w + 3600)]> (redis w).
Proof.
  unfold post_process_group, bind.
  destruct (lock_cluster env) as [cluster_key|] eqn:Hc.
  - destruct (redis_up w) eqn:Hup.
    + destruct (redis_live w (lock_key event)) eqn:Hlive.
      * rewrite (check_event_duplicate env event w cluster_key Hc Hup Hlive).
        by left.
      * rewrite (check_event_claims env event w cluster_key Hc Hup Hlive).
        right. simpl. by rewrite post_process_stages_redis.
    + rewrite (check_event_unreachable env event w cluster_key Hc Hup). by left.
  - rewrite (check_event_without_cluster env event w Hc). left. simpl.
    by rewrite post_process_stages_redis.
Qed.

(** X7.  A delivery touches no lock but the one of its own event: the
    lock entry of every event with another project id or another event
    id is after the call what it was before, so the delivery of one
    event never makes another one a duplicate. *)
Theorem delivery_leaves_other_locks_alone
    (event other : Event)
    (is_new is_regression is_sample is_new_group_environment : bool)
    (primary_hash : option string) (w : World) :
  ev_project_id other ≠ ev_project_id event
  ∨ ev_event_id other ≠ ev_event_id event →
  redis (post_process_group env event is_new is_regression is_sample
           is_new_group_environment primary_hash w).1 !! lock_key other
  = redis w !! lock_key other.
Proof.
  intros Hother.
  pose proof (lock_key_differs event other Hother) as Hne.
  destruct (post_process_group_redis event is_new is_regression is_sample
              is_new_group_environment primary_hash w) as [-> | ->]; [done|].
  by apply lookup_insert_ne.
Qed.


End DedupWindow.

Lemma delivery_leaves_other_locks_alone_witness :
  (ev_project_id other_event ≠ ev_project_id sample_event
   ∨ ev_event_id other_event ≠ ev_event_id sample_event)
  ∧ redis first_delivery.1 !! lock_key other_event = None.
Proof.
  assert (ev_project_id other_event ≠ ev_project_id sample_event
          ∨ ev_event_id other_event ≠ ev_event_id sample_event) as Hother
    by (right; discriminate).
  split; [exact Hother|].
  pose proof (delivery_leaves_other_locks_alone sample_env sample_event other_event
                true false false false None sample_world Hother) as Hkept.
  fold first_delivery in Hkept. rewrite Hkept. vm_compute. reflexivity.
Defined.


(** ** What a whole run may and may not do *)

Section Steps.

Context (R : World -> World -> Prop) `{!Reflexive R, !Transitive R}.

Lemma steps_ret {A} (a : A) : steps R (ret a).
Proof. intros w. simpl. reflexivity. Qed.

Lemma steps_raise {A} e : steps R (@raise A e).
Proof. intros w. simpl. reflexivity. Qed.

Lemma steps_bind {A C} (m : M A) (k : A -> M C) :
  steps R m → (∀ a, steps R (k a)) → steps R (bind m k).
Proof.
  intros Hm Hk w. unfold bind. specialize (Hm w).
  destruct (m w) as [w1 [a|e]]; simpl in *; [|done].
  etrans; [exact Hm|apply Hk].
Qed.

Lemma steps_when b m : steps R m → steps R (when b m).
Proof. intros Hm. destruct b; [done|apply steps_ret]. Qed.

Lemma steps_for_each {A} (xs : list A) body :
  (∀ x, steps R (body x)) → steps R (for_each xs body).
Proof.
  intros Hbody. induction xs as [|x rest IH]; simpl.
  - apply steps_ret.
  - by apply steps_bind.
Qed.

Lemma steps_try_except {A} (body : M A) caught handler :
  steps R body → steps R handler → steps R (try_except body caught handler).
Proof.
  intros Hb Hh w. unfold try_except. specialize (Hb w).
  destruct (body w) as [w1 [a|e]]; simpl in *; [done|].
  destruct (caught e); [|done]. etrans; [exact Hb|apply Hh].
Qed.

Lemma steps_safe_execute {A} name (call : M A) expected :
  (∀ level msg extra w, R w (emit (ELog level msg extra) w)) →
  steps R call → steps R (safe_execute name call expected).
Proof.
  intros Hlog Hc w. unfold safe_execute. specialize (Hc w).
  destruct (call w) as [w1 [a|e]]; simpl in *; [done|].
  destruct (expected e); simpl; (etrans; [exact Hc|apply Hlog]).
Qed.

Lemma steps_run_rule_callbacks event pending has_alert :
  (∀ level msg extra w, R w (emit (ELog level msg extra) w)) →
  (∀ name futures w,
     R w (emit (ECall (CallCallback name (ev_event_id event) futures)) w)) →
  steps R (run_rule_callbacks event pending has_alert).
Proof.
  intros Hlog Hcall. revert has_alert.
  induction pending as [|[callback futures] rest IH]; intros has_alert; simpl.
  - apply steps_ret.
  - apply steps_bind; [|intros _; apply IH].
    apply steps_safe_execute; [exact Hlog|].
    intros w. unfold run_callback, bind, effect. simpl.
    destruct (cb_raises callback); apply Hcall.
Qed.

End Steps.

Section Emits.

Context (P : Effect -> Prop).

#[export] Instance emits_refl : Reflexive (emits P).
Proof. intros w. exists []. by rewrite app_nil_r. Qed.

#[export] Instance emits_trans : Transitive (emits P).
Proof.
  intros w1 w2 w3 (n1 & H1 & HP1) (n2 & H2 & HP2).
  exists (n1 ++ n2). split; [by rewrite H2, H1, app_assoc|by apply Forall_app].
Qed.

Lemma emits_emit e w w1 : P e → emits P w w1 → emits P w (emit e w1).
Proof.
  intros He (new & Hnew & HP). exists (new ++ [e]). split.
  - simpl. by rewrite Hnew, app_assoc.
  - apply Forall_app. split; [done|by constructor].
Qed.

Lemma emits_set_store s w w1 : emits P w w1 → emits P w (set_store s w1).
Proof. done. Qed.

Lemma emits_set_cache c w w1 : emits P w w1 → emits P w (set_cache c w1).
Proof. done. Qed.

Lemma emits_set_redis r w w1 : emits P w w1 → emits P w (set_redis r w1).
Proof. done. Qed.

Lemma emits_set_scope_tags t w w1 : emits P w w1 → emits P w (set_scope_tags t w1).
Proof. done. Qed.

Lemma emits_set_rng_pos n w w1 : emits P w w1 → emits P w (set_rng_pos n w1).
Proof. done. Qed.

Lemma emits_weaken (Q : Effect -> Prop) w w1 :
  (∀ e, P e → Q e) → emits P w w1 → emits Q w w1.
Proof.
  intros HPQ (new & Hnew & HP). exists new. split; [done|].
  by eapply Forall_impl.
Qed.

End Emits.

(** Unfolds the module down to the primitive operations on the world;
    the combinators stay folded. *)
Ltac unfold_module :=
  unfold post_process_group, post_process_stages,
    check_event_already_post_processed, _capture_stats, process_snoozes,
    handle_owner_assignment, service_hooks_stage, dispatch_service_hooks,
    _get_service_hooks, resource_change_stage, _should_send_error_created_hooks,
    plugins_stage, plugin_post_process_group, plugins_get, post_process,
    event_processed_send_robust;
  unfold logger_info, metrics_incr, metrics_timing, delay, effect, cache_get,
    cache_set, scope_set_tag, redis_set_nx, get_group_with_redirect,
    project_get_from_cache, organization_get_from_cache, snooze_get_from_cache,
    snooze_delete, group_update_status, assignee_set_exists,
    group_assignee_assign, service_hooks_of_project, error_created_hook_exists,
    random_random, snooze_is_valid_now, get_autoassign_owner, rp_apply.

(** A primitive operation emits what [psolve] accepts. *)
Ltac emits_leaf psolve :=
  let w := fresh "w" in
  intros w; unfold bind, ret, raise; simpl;
  repeat match goal with
         | |- context [match ?x with _ => _ end] =>
             lazymatch x with
             | context [match _ with _ => _ end] => fail
             | _ => destruct x; simpl
             end
         end;
  repeat match goal with
         | |- emits _ _ (emit _ _) => apply emits_emit; [psolve|]
         | |- emits _ _ (set_store _ _) => apply emits_set_store
         | |- emits _ _ (set_cache _ _) => apply emits_set_cache
         | |- emits _ _ (set_redis _ _) => apply emits_set_redis
         | |- emits _ _ (set_scope_tags _ _) => apply emits_set_scope_tags
         | |- emits _ _ (set_rng_pos _ _) => apply emits_set_rng_pos
         end;
  reflexivity.

Ltac emits_one psolve :=
  intros; apply emits_emit; [psolve|reflexivity].

(** Walks through a computation of the module, leaving the primitive
    operations to [leaf] and the entries of the isolation wrapper to
    [logs]. *)
Ltac steps_walk_with pre leaf logs :=
  repeat (lazy zeta; pre;
          match goal with
          | |- steps _ (when false _) => refine (steps_ret _ _)
          | |- steps _ (if false then _ else _) => lazy iota
          | |- steps ?R (bind (ret ?a) ?k) => change (steps R (k a)); lazy beta
          | |- steps _ (ret _) => refine (steps_ret _ _)
          | |- steps _ (raise _) => refine (steps_raise _ _)
          | |- steps _ (bind _ _) => refine (steps_bind _ _ _ _ _); [|intros ?]
          | |- steps _ (for_each _ _) => refine (steps_for_each _ _ _ _); intros ?
          | |- steps _ (try_except _ _ _) => refine (steps_try_except _ _ _ _ _ _)
          | |- steps _ (safe_execute _ _ _) =>
              refine (steps_safe_execute _ _ _ _ _ _); [logs|]
          | |- steps _ (when _ _) => refine (steps_when _ _ _ _)
          | |- steps _ (run_rule_callbacks _ _ _) =>
              refine (steps_run_rule_callbacks _ _ _ _ _ _); [logs|logs]
          | |- steps _ (if ?b then _ else _) => destruct b
          | |- steps _ (match ?x with _ => _ end) => destruct x
          | |- steps _ _ => solve [leaf]
          end).

Ltac steps_walk leaf logs := steps_walk_with idtac leaf logs.

Section CompletionSignal.

Variable env : Env.

Lemma signals_at_end_bind {A} event primary_hash (m : M A) (k : A -> M unit) :
  steps (emits (λ e, ¬ is_signal e)) m →
  (∀ a, signals_at_end event primary_hash (k a)) →
  signals_at_end event primary_hash (bind m k).
Proof.
  intros Hm Hk w. unfold bind. destruct (Hm w) as (n1 & H1 & HP1).
  destruct (m w) as [w1 [a|e]]; simpl in *.
  - destruct (Hk a w1) as (n2 & H2 & Hend).
    exists (n1 ++ n2). split; [by rewrite H2, H1, app_assoc|].
    destruct ((k a w1).2) as [[]|e].
    + destruct Hend as (front & pid & gid & -> & Hfront).
      exists (n1 ++ front), pid, gid. split; [by rewrite app_assoc|].
      by apply Forall_app.
    + by apply Forall_app.
  - by exists n1.
Qed.

Lemma signals_at_end_send event event' primary_hash :
  ev_event_id event' = ev_event_id event →
  signals_at_end event primary_hash (event_processed_send_robust event' primary_hash).
Proof.
  intros Hid w. eexists. split; [reflexivity|]. simpl.
  exists [], (p_id (ev_project event')), (g_id (ev_group event')).
  rewrite Hid. by split.
Qed.

Lemma post_process_stages_signals_at_end event is_new is_regression is_sample
    is_new_group_environment primary_hash :
  signals_at_end event primary_hash
    (post_process_stages env event is_new is_regression is_sample
       is_new_group_environment primary_hash).
Proof.
  unfold post_process_stages.
  repeat (lazy zeta;
          match goal with
          | |- signals_at_end _ _ (bind _ _) =>
              apply signals_at_end_bind;
              [unfold_module;
               steps_walk ltac:(emits_leaf ltac:(simpl; tauto))
                          ltac:(emits_one ltac:(simpl; tauto))
              |intros ?]
          | |- signals_at_end _ _ (match ?x with _ => _ end) => destruct x
          end).
  by apply signals_at_end_send.
Qed.

Lemma check_event_trace event w :
  trace (check_event_already_post_processed env event w).1 = trace w.
Proof.
  assert (steps (emits (λ _, False)) (check_event_already_post_processed env event))
    as Hsteps.
  { unfold_module. steps_walk ltac:(emits_leaf ltac:(fail)) ltac:(fail). }
  destruct (Hsteps w) as (new & Hnew & Hnone).
  destruct new as [|e new]; [by rewrite app_nil_r in Hnew|].
  by apply Forall_cons in Hnone as [[] _].
Qed.

(** X9.  [post_process_group] only ever adds to the trace, and it
    sends the completion signal exactly when it has run to the end.  A
    delivery that returns is either a skipped duplicate, whose one
    effect is the log entry of the skip, or its last effect is the
    signal for its event with the given primary hash and it sent no
    other signal.  A delivery that raises has sent no signal. *)
Theorem completion_signal_is_sent_last
    (event : Event)
    (is_new is_regression is_sample is_new_group_environment : bool)
    (primary_hash : option string) (w : World) :
  ∃ new,
    trace (post_process_group env event is_new is_regression is_sample
             is_new_group_environment primary_hash w).1 = trace w ++ new
    ∧ match (post_process_group env event is_new is_regression is_sample
               is_new_group_environment primary_hash w).2 with
      | Ok _ =>
          new = [ELog INFO "post_process.skipped" (skipped_extra event)]
          ∨ ∃ front project_id group_id,
              new = front ++ [ESignal project_id group_id (ev_event_id event)
                                primary_hash]
              ∧ Forall (λ e, ¬ is_signal e) front
      | Raise _ => Forall (λ e, ¬ is_signal e) new
      end.
Proof.
  unfold post_process_group, bind.
  pose proof (check_event_trace event w) as Hcheck.
  destruct (check_event_already_post_processed env event w) as [w1 [dup|e]];
    simpl in Hcheck.
  - destruct (default false dup).
    + exists [ELog INFO "post_process.skipped" (skipped_extra event)].
      simpl. rewrite Hcheck. split; [done|by left].
    + destruct (post_process_stages_signals_at_end event is_new is_regression
                  is_sample is_new_group_environment primary_hash w1)
        as (new & Hnew & Hend).
      exists new. rewrite Hnew, Hcheck. split; [done|].
      destruct ((post_process_stages env event is_new is_regression is_sample
                   is_new_group_environment primary_hash w1).2); [by right|done].
  - exists []. simpl. rewrite Hcheck, app_nil_r. by split.
Qed.

End CompletionSignal.

Section Policies.

Variable env : Env.

(** X10.  When no project has the projects:servicehooks feature, a
    delivery schedules no hook delivery and does not touch the
    hook-list cache, whatever hooks are registered. *)
Theorem no_service_hook_traffic_without_the_feature
    (event : Event)
    (is_new is_regression is_sample is_new_group_environment : bool)
    (primary_hash : option string) (w : World) :
  (∀ project_id, features_has env "projects:servicehooks" project_id = false) →
  emits (λ e, ¬ service_hook_effect e) w
    (post_process_group env event is_new is_regression is_sample
       is_new_group_environment primary_hash w).1.
Proof.
  intros Hoff. revert w.
  change (steps (emits (λ e, ¬ service_hook_effect e))
            (post_process_group env event is_new is_regression is_sample
               is_new_group_environment primary_hash)).
  unfold_module.
  steps_walk_with
    ltac:(rewrite ?Hoff)
    ltac:(emits_leaf
            ltac:(simpl; try tauto; intros [? Hkey];
                  exact (hooks_key_ne_error_key _ _ (eq_sym Hkey))))
    ltac:(emits_one ltac:(simpl; tauto)).
Qed.

(** X11.  For an event that does not open a new issue ([is_new] false),
    a delivery counts no events.unique and schedules no resource-change
    notification for sender Group. *)
Theorem no_new_issue_effects_for_known_issues
    (event : Event) (is_regression is_sample is_new_group_environment : bool)
    (primary_hash : option string) (w : World) :
  emits (λ e, ¬ new_issue_effect e) w
    (post_process_group env event false is_regression is_sample
       is_new_group_environment primary_hash w).1.
Proof.
  revert w.
  change (steps (emits (λ e, ¬ new_issue_effect e))
            (post_process_group env event false is_regression is_sample
               is_new_group_environment primary_hash)).
  unfold_module.
  steps_walk ltac:(emits_leaf ltac:(simpl; tauto))
             ltac:(emits_one ltac:(simpl; tauto)).
Qed.

(** X12.  For an event whose type is not "error", a delivery does not
    evaluate the error-hook decision: it schedules no resource-change
    notification for sender Error and does not touch the cache of the
    decision, in sampling mode or not. *)
Theorem no_error_hook_effects_for_other_events
    (event : Event)
    (is_new is_regression is_sample is_new_group_environment : bool)
    (primary_hash : option string) (w : World) :
  ev_type event ≠ "error" →
  emits (λ e, ¬ error_hook_effect e) w
    (post_process_group env event is_new is_regression is_sample
       is_new_group_environment primary_hash w).1.
Proof.
  intros Hne%String.eqb_neq. revert w.
  change (steps (emits (λ e, ¬ error_hook_effect e))
            (post_process_group env event is_new is_regression is_sample
               is_new_group_environment primary_hash)).
  unfold_module.
  steps_walk_with
    ltac:(simpl ev_type; rewrite ?Hne; lazy iota)
    ltac:(emits_leaf
            ltac:(simpl; try tauto; intros [? Hkey];
                  exact (hooks_key_ne_error_key _ _ Hkey)))
    ltac:(emits_one ltac:(simpl; tauto)).
Qed.

End Policies.

Lemma no_service_hook_traffic_without_the_feature_witness :
  (∀ project_id,
     features_has env_without_service_hooks "projects:servicehooks" project_id
     = false)
  ∧ emits (λ e, ¬ service_hook_effect e) sample_world
      (post_process_group env_without_service_hooks sample_event true false false
         false None sample_world).1.
Proof.
  assert (∀ project_id,
            features_has env_without_service_hooks "projects:servicehooks" project_id
            = false) as Hoff by (intros project_id; reflexivity).
  split; [exact Hoff|].
  exact (no_service_hook_traffic_without_the_feature env_without_service_hooks
           sample_event true false false false None sample_world Hoff).
Defined.

Lemma no_error_hook_effects_for_other_events_witness :
  ev_type transaction_event ≠ "error"
  ∧ emits (λ e, ¬ error_hook_effect e) sample_world
      (post_process_group env_without_sampling transaction_event true false false
         false None sample_world).1.
Proof.
  assert (ev_type transaction_event ≠ "error") as Hne by discriminate.
  split; [exact Hne|].
  exact (no_error_hook_effects_for_other_events env_without_sampling
           transaction_event true false false false None sample_world Hne).
Defined.

(** ** What a delivery may write to the store *)

Section StoreWrites.

Lemma store_evolves_refl s : store_evolves s s.
Proof. repeat split; auto. Qed.

Lemma store_evolves_trans s1 s2 s3 :
  store_evolves s1 s2 → store_evolves s2 s3 → store_evolves s1 s3.
Proof.
  intros (Hp & Ho & Hr & Hh & Hg & Hs & Ha) (Hp' & Ho' & Hr' & Hh' & Hg' & Hs' & Ha').
  repeat split; try congruence.
  - intros gid. destruct (Hg gid) as [H1|H1], (Hg' gid) as [H2|H2];
      rewrite H2, H1; auto.
    right. by destruct (db_groups s1 !! gid).
  - intros gid. destruct (Hs gid) as [H1|H1], (Hs' gid) as [H2|H2];
      rewrite H2, ?H1; auto.
  - intros gid owner Hin. by apply Ha', Ha.
Qed.

#[export] Instance store_run_refl : Reflexive store_run.
Proof. intros w. apply store_evolves_refl. Qed.

#[export] Instance store_run_trans : Transitive store_run.
Proof. intros w1 w2 w3. apply store_evolves_trans. Qed.

Lemma store_evolves_delete_snooze gid s :
  store_evolves s (set_snoozes (delete gid (db_snoozes s)) s).
Proof.
  repeat split; auto. intros gid'. simpl.
  destruct (decide (gid = gid')) as [->|Hne].
  - right. apply lookup_delete_eq.
  - left. by apply lookup_delete_ne.
Qed.

Lemma store_evolves_update_status gid s :
  store_evolves s (set_groups (alter (set_status UNRESOLVED) gid (db_groups s)) s).
Proof.
  repeat split; auto. intros gid'. simpl.
  destruct (decide (gid = gid')) as [->|Hne].
  - right. apply lookup_alter_eq.
  - left. by apply lookup_alter_ne.
Qed.

Lemma store_evolves_assign gid owner s :
  db_assignees s !! gid = None →
  store_evolves s (set_assignees (<[gid := owner]> (db_assignees s)) s).
Proof.
  intros Hfree. repeat split; auto. intros gid' owner' Hin. simpl.
  rewrite lookup_insert_ne; [done|]. congruence.
Qed.

Variable env : Env.

(** X13.  Whatever the event and the deployment, a delivery writes no
    project, organization, redirect or service hook; it changes no
    issue except for setting a status to UNRESOLVED; it creates and
    changes no snooze, it can only delete one; and every issue that had
    an assignee keeps that assignee. *)
Theorem delivery_writes_little
    (event : Event)
    (is_new is_regression is_sample is_new_group_environment : bool)
    (primary_hash : option string) (w : World) :
  store_evolves (store w)
    (store (post_process_group env event is_new is_regression is_sample
              is_new_group_environment primary_hash w).1).
Proof.
  revert w.
  change (steps store_run
            (post_process_group env event is_new is_regression is_sample
               is_new_group_environment primary_hash)).
  unfold_module.
  steps_walk
    ltac:(let w := fresh "w" in
          intros w; unfold bind, ret, raise; simpl;
          repeat match goal with
                 | |- context [match ?x with _ => _ end] =>
                     lazymatch x with
                     | context [match _ with _ => _ end] => fail
                     | _ => destruct x eqn:?; simpl
                     end
                 end;
          unfold store_run; simpl;
          first [apply store_evolves_refl | apply store_evolves_delete_snooze
                | apply store_evolves_update_status
                | by apply store_evolves_assign])
    ltac:(intros; apply store_evolves_refl).
Qed.

End StoreWrites.

(** ** Failed re-binding *)

Section Rebinding.

Variable env : Env.

Lemma get_group_with_redirect_spec group_id w :
  get_group_with_redirect group_id w =
    match rebound_group (store w) group_id with
    | Some g => (w, Ok (g, bool_decide (db_groups (store w) !! group_id = None)))
    | None => (w, Raise (DoesNotExist "Group"))
    end.
Proof.
  unfold get_group_with_redirect, rebound_group.
  destruct (db_groups (store w) !! group_id) as [g|]; [done|].
  destruct (db_redirects (store w) !! group_id) as [new_id|]; [|done].
  by destruct (db_groups (store w) !! new_id).
Qed.



End Rebinding.


(** ** Running a stage again *)

Section Again.

Variable env : Env.

(** X15.  A reappearance is reported once: when [process_snoozes]
    has answered [True] for an issue, asking again answers [False] and
    changes nothing, because the snooze is gone. *)
Theorem reappearance_is_reported_once
    (group group1 : Group) (w w1 : World) :
  process_snoozes env group w = (w1, Ok (group1, true)) →
  process_snoozes env group1 w1 = (w1, Ok (group1, false)).
Proof.
  intros Hfirst.
  destruct (db_snoozes (store w) !! g_id group) as [snooze|] eqn:Hs.
  - rewrite (process_snoozes_some env _ _ _ Hs) in Hfirst.
    destruct (snooze_is_valid env (store w) (now w) snooze group);
      [discriminate|].
    injection Hfirst as <- <-.
    apply process_snoozes_none. simpl. apply lookup_delete_eq.
  - rewrite (process_snoozes_none env _ _ Hs) in Hfirst. discriminate.
Qed.

(** X16.  Owner assignment settles in one run: running
    [handle_owner_assignment] again for the same issue and event leaves
    the store as the first run left it. *)
Theorem handle_owner_assignment_again
    (project : Project) (group : Group) (event : Event) (w : World) :
  ∃ w1 w2,
    handle_owner_assignment env project group event w = (w1, Ok tt)
    ∧ handle_owner_assignment env project group event w1 = (w2, Ok tt)
    ∧ store w2 = store w1
    ∧ (is_Some (db_assignees (store w1) !! g_id group) → w2 = w1).
Proof.
  destruct (db_assignees (store w) !! g_id group) as [o|] eqn:Ha.
  - exists w, w. rewrite handle_owner_assignment_assigned; [|by rewrite Ha].
    by repeat split.
  - rewrite (handle_owner_assignment_unassigned env _ _ _ _ Ha). lazy zeta.
    destruct (autoassign_owner env (store w) (g_project_id group) (ev_data event))
      as [owner|] eqn:Ho.
    + eexists _, _. split; [reflexivity|].
      rewrite handle_owner_assignment_assigned;
        [by repeat split|simpl; rewrite lookup_insert_eq; by eexists].
    + eexists _, _. split; [reflexivity|].
      rewrite handle_owner_assignment_unassigned; [|exact Ha].
      lazy zeta. simpl store. rewrite Ho.
      split; [reflexivity|]. split; [reflexivity|].
      simpl. rewrite Ha. by intros [? ?].
Qed.

End Again.

Lemma reappearance_is_reported_once_witness :
  ∃ w1 group1,
    process_snoozes sample_env sample_group sample_world = (w1, Ok (group1, true))
    ∧ process_snoozes sample_env group1 w1 = (w1, Ok (group1, false)).
Proof.
  eexists _, _.
  assert (process_snoozes sample_env sample_group sample_world
          = ((process_snoozes sample_env sample_group sample_world).1,
             Ok (set_status UNRESOLVED sample_group, true))) as Hfirst
    by (vm_compute; reflexivity).
  split; [exact Hfirst|].
  exact (reappearance_is_reported_once sample_env _ _ _ _ Hfirst).
Defined.

(** ** Cache entries and random draws *)

Section CacheAndDraws.

#[export] Instance cache_kept_at_refl key : Reflexive (cache_kept_at key).
Proof. by intros w. Qed.

#[export] Instance cache_kept_at_trans key : Transitive (cache_kept_at key).
Proof. intros w1 w2 w3 H1 H2. unfold cache_kept_at in *. congruence. Qed.

#[export] Instance rng_kept_refl : Reflexive rng_kept.
Proof. by intros w. Qed.

#[export] Instance rng_kept_trans : Transitive rng_kept.
Proof. intros w1 w2 w3 H1 H2. unfold rng_kept in *. congruence. Qed.

Variable env : Env.


(** X18.  Random numbers are drawn for the sampled error-hook decision
    only: a delivery in a deployment without sampling, or of an event
    that is not an error, draws none. *)
Theorem delivery_draws_only_for_sampling
    (event : Event)
    (is_new is_regression is_sample is_new_group_environment : bool)
    (primary_hash : option string) (w : World) :
  use_error_hook_sampling env = false ∨ ev_type event ≠ "error" →
  rng_pos (post_process_group env event is_new is_regression is_sample
             is_new_group_environment primary_hash w).1 = rng_pos w.
Proof.
  intros Hno. revert w.
  change (steps rng_kept
            (post_process_group env event is_new is_regression is_sample
               is_new_group_environment primary_hash)).
  unfold_module.
  destruct Hno as [Hoff|Hne%String.eqb_neq].
  - rewrite Hoff.
    steps_walk
      ltac:(let w := fresh "w" in
            intros w; unfold bind, ret, raise; simpl;
            repeat match goal with
                   | |- context [match ?x with _ => _ end] =>
                       lazymatch x with
                       | context [match _ with _ => _ end] => fail
                       | _ => destruct x; simpl
                       end
                   end;
            reflexivity)
      ltac:(intros; reflexivity).
  - steps_walk_with
      ltac:(simpl ev_type; rewrite ?Hne; lazy iota)
      ltac:(let w := fresh "w" in
            intros w; unfold bind, ret, raise; simpl;
            repeat match goal with
                   | |- context [match ?x with _ => _ end] =>
                       lazymatch x with
                       | context [match _ with _ => _ end] => fail
                       | _ => destruct x; simpl
                       end
                   end;
            reflexivity)
      ltac:(intros; reflexivity).
Qed.

(** X19.  With the sampling option on and a sample rate of 1 or more,
    the decision is true for every draw, a draw being below 1. *)
Theorem sampling_everything (project : Project) (w : World) :
  use_error_hook_sampling env = true →
  (1 <= error_hook_sample_rate env)%Q →
  (random_draws env (rng_pos w) < 1)%Q →
  ∃ w', _should_send_error_created_hooks env project w = (w', Ok true)
        ∧ cache w' = cache w ∧ trace w' = trace w.
Proof.
  intros Hs Hrate Hdraw.
  rewrite (_should_send_error_created_hooks_sampling env _ _ Hs).
  assert (negb (Qle_bool (error_hook_sample_rate env)
                  (random_draws env (rng_pos w))) = true) as ->.
  { apply negb_true_iff, not_true_iff_false. rewrite Qle_bool_iff.
    intros Hle. apply (Qlt_irrefl 1).
    eapply Qle_lt_trans; [exact Hrate|].
    eapply Qle_lt_trans; [exact Hle|exact Hdraw]. }
  by eexists.
Qed.

End CacheAndDraws.


Lemma delivery_draws_only_for_sampling_witness :
  (use_error_hook_sampling env_without_sampling = false
   ∨ ev_type sample_event ≠ "error")
  ∧ rng_pos (post_process_group env_without_sampling sample_event true false false
               false None sample_world).1 = 0%nat.
Proof.
  assert (use_error_hook_sampling env_without_sampling = false
          ∨ ev_type sample_event ≠ "error") as Hno by (left; reflexivity).
  split; [exact Hno|].
  exact (delivery_draws_only_for_sampling env_without_sampling sample_event true
           false false false None sample_world Hno).
Defined.

Lemma sampling_everything_witness :
  use_error_hook_sampling env_sampling_all = true
  ∧ (1 <= error_hook_sample_rate env_sampling_all)%Q
  ∧ (random_draws env_sampling_all (rng_pos sample_world) < 1)%Q
  ∧ ∃ w', _should_send_error_created_hooks env_sampling_all sample_project
            sample_world = (w', Ok true).
Proof.
  assert (1 <= error_hook_sample_rate env_sampling_all)%Q as Hrate
    by (vm_compute; discriminate).
  assert (random_draws env_sampling_all (rng_pos sample_world) < 1)%Q as Hdraw
    by (vm_compute; reflexivity).
  split; [reflexivity|]. split; [exact Hrate|]. split; [exact Hdraw|].
  destruct (sampling_everything env_sampling_all sample_project sample_world
              eq_refl Hrate Hdraw) as (w' & Hrun & _).
  by exists w'.
Defined.

(** ** The order of the stages *)

Section StageOrder.

Variable env : Env.

Lemma staged_weaken k k' l : (k' ≤ k)%nat → staged k l → staged k' l.
Proof.
  revert k k'. induction l as [|e l IH]; intros k k' Hle; simpl; [done|].
  destruct (is_log e); [by apply IH|]. intros [??]. split; [lia|done].
Qed.

Lemma staged_app k l1 l2 :
  Forall (of_stage k) l1 → staged k l2 → staged k (l1 ++ l2).
Proof.
  intros Hl1 Hl2. induction Hl1 as [|e l1 [Hlog|Hstage] _ IH]; simpl; [done|..].
  - by rewrite Hlog.
  - destruct (is_log e); [done|]. rewrite Hstage. split; [lia|done].
Qed.

Lemma staged_bound k l e :
  staged k l → e ∈ l → is_log e = false → (k ≤ stage_of e)%nat.
Proof.
  revert k. induction l as [|x l IH]; intros k Hst Hin Hnl;
    [by apply elem_of_nil in Hin|].
  simpl in Hst. apply elem_of_cons in Hin as [->|Hin].
  - rewrite Hnl in Hst. tauto.
  - destruct (is_log x); [by apply IH|].
    destruct Hst as [Hk Hst]. specialize (IH _ Hst Hin Hnl). lia.
Qed.

Lemma staged_pairs k before e1 between e2 after :
  staged k (before ++ e1 :: between ++ e2 :: after) →
  is_log e1 = false → is_log e2 = false →
  (stage_of e1 ≤ stage_of e2)%nat.
Proof.
  revert k. induction before as [|x before IH]; intros k Hst H1 H2; simpl in Hst.
  - rewrite H1 in Hst. destruct Hst as [_ Hst].
    apply (staged_bound _ _ _ Hst); [|done].
    apply elem_of_app. right. by left.
  - destruct (is_log x); [by apply (IH k)|].
    destruct Hst as [_ Hst]. by apply (IH _ Hst).
Qed.

Lemma in_order_bind k k' {A C} (m : M A) (f : A -> M C) :
  (k ≤ k')%nat →
  steps (emits (of_stage k)) m →
  (∀ a, in_order k' (f a)) →
  in_order k (bind m f).
Proof.
  intros Hle Hm Hf w. unfold bind. destruct (Hm w) as (n1 & H1 & HP1).
  destruct (m w) as [w1 [a|e]]; simpl in *.
  - destruct (Hf a w1) as (n2 & H2 & Hn2).
    exists (n1 ++ n2). split; [by rewrite H2, H1, app_assoc|].
    apply staged_app; [done|]. by apply (staged_weaken k').
  - exists n1. split; [done|]. rewrite <- (app_nil_r n1). by apply staged_app.
Qed.

Lemma in_order_steps k {A} (m : M A) :
  steps (emits (of_stage k)) m → in_order k m.
Proof.
  intros Hm w. destruct (Hm w) as (n1 & H1 & HP1).
  exists n1. split; [done|]. rewrite <- (app_nil_r n1). by apply staged_app.
Qed.

Ltac stage_steps :=
  unfold_module;
  steps_walk
    ltac:(emits_leaf ltac:(first [left; reflexivity | right; reflexivity]))
    ltac:(emits_one ltac:(first [left; reflexivity | right; reflexivity])).

Lemma post_process_stages_in_order event is_new is_regression is_sample
    is_new_group_environment primary_hash :
  in_order 0
    (post_process_stages env event is_new is_regression is_sample
       is_new_group_environment primary_hash).
Proof.
  unfold post_process_stages.
  apply (in_order_bind 0 0); [lia|stage_steps|intros [group ?]]. lazy zeta.
  apply (in_order_bind 0 0); [lia|stage_steps|intros _].
  apply (in_order_bind 0 0); [lia|stage_steps|intros project]. lazy zeta.
  apply (in_order_bind 0 1); [lia|stage_steps|intros _].
  apply (in_order_bind 1 1); [lia|stage_steps|intros [group' has_reappeared]].
  lazy zeta.
  apply (in_order_bind 1 2); [lia|stage_steps|intros _].
  apply (in_order_bind 2 3); [lia|stage_steps|intros pending].
  apply (in_order_bind 3 4); [lia|stage_steps|intros has_alert].
  apply (in_order_bind 4 5); [lia|stage_steps|intros _].
  apply (in_order_bind 5 6); [lia|stage_steps|intros _].
  apply (in_order_bind 6 7); [lia|stage_steps|intros _].
  apply in_order_steps. stage_steps.
Qed.

(** X20.  The stages of a delivery leave their traces in one order:
    whatever [post_process_group] adds to the trace, log entries apart,
    comes as metrics first, then owner assignment, rule evaluation,
    rule callbacks, service-hook fan-out, resource-change
    notifications, plugins, and the completion signal last.  No effect
    of an earlier stage follows one of a later stage. *)
Theorem stages_run_in_order
    (event : Event)
    (is_new is_regression is_sample is_new_group_environment : bool)
    (primary_hash : option string) (w : World) :
  ∃ new,
    trace (post_process_group env event is_new is_regression is_sample
             is_new_group_environment primary_hash w).1 = trace w ++ new
    ∧ staged 0 new
    ∧ ∀ before e1 between e2 after,
        new = before ++ e1 :: between ++ e2 :: after →
        is_log e1 = false → is_log e2 = false →
        (stage_of e1 ≤ stage_of e2)%nat.
Proof.
  assert (in_order 0 (post_process_group env event is_new is_regression is_sample
                        is_new_group_environment primary_hash)) as Horder.
  { unfold post_process_group.
    apply (in_order_bind 0 0); [lia|stage_steps|intros duplicate].
    destruct (default false duplicate).
    - apply in_order_steps. stage_steps.
    - apply post_process_stages_in_order. }
  destruct (Horder w) as (new & Hnew & Hstaged).
  exists new. split; [exact Hnew|]. split; [exact Hstaged|].
  intros before e1 between e2 after -> H1 H2.
  by apply (staged_pairs 0 before e1 between e2 after).
Qed.

End StageOrder.

(** ** A snooze that has run out, seen from the whole delivery *)

Section ExpiredSnooze.

Variable env : Env.

Lemma _capture_stats_returns event is_new w :
  ∃ w', _capture_stats event is_new w = (w', Ok tt)
        ∧ store w' = store w ∧ now w' = now w.
Proof.
  unfold _capture_stats.
  destruct (g_platform (ev_group event)) as [[|c platform]|];
    [by eexists| |by eexists].
  destruct is_new; by eexists.
Qed.

Ltac store_leaf :=
  let w := fresh "w" in
  intros w; unfold bind, ret, raise; simpl;
  repeat match goal with
         | |- context [match ?x with _ => _ end] =>
             lazymatch x with
             | context [match _ with _ => _ end] => fail
             | _ => destruct x eqn:?; simpl
             end
         end;
  unfold store_run; simpl;
  first [apply store_evolves_refl | apply store_evolves_delete_snooze
        | apply store_evolves_update_status | by apply store_evolves_assign].

(** X21.  When the stages of a delivery find the issue of the event
    with a snooze that is no longer valid, then however the delivery
    ends, that snooze is gone from the store afterwards and the row of
    the issue has status UNRESOLVED: no later stage brings the snooze
    back or changes the status again. *)
Theorem expired_snooze_is_cleared
    (event : Event)
    (is_new is_regression is_sample is_new_group_environment : bool)
    (primary_hash : option string) (w : World)
    (g : Group) (snooze : GroupSnooze) :
  rebound_group (store w) (ev_group_id event) = Some g →
  is_Some (db_projects (store w) !! g_project_id g) →
  db_snoozes (store w) !! g_id g = Some snooze →
  snooze_is_valid env (store w) (now w) snooze g = false →
  db_snoozes (store (post_process_stages env event is_new is_regression is_sample
                       is_new_group_environment primary_hash w).1) !! g_id g
  = None
  ∧ (g_status <$> db_groups
                    (store (post_process_stages env event is_new is_regression
                              is_sample is_new_group_environment primary_hash
                              w).1) !! g_id g)
    = ((λ _, UNRESOLVED) <$> db_groups (store w) !! g_id g).
Proof.
  intros Hg [project Hp] Hs Hinvalid.
  enough (∃ w3 r3,
            post_process_stages env event is_new is_regression is_sample
              is_new_group_environment primary_hash w = (w3, r3)
            ∧ db_snoozes (store w3) !! g_id g = None
            ∧ (g_status <$> db_groups (store w3) !! g_id g)
              = ((λ _, UNRESOLVED) <$> db_groups (store w) !! g_id g))
    as (w3 & r3 & -> & Hdone); [exact Hdone|].
  unfold post_process_stages, bind at 1. simpl ev_group_id.
  rewrite get_group_with_redirect_spec, Hg. lazy zeta.
  unfold bind at 1, scope_set_tag.
  unfold bind at 1, project_get_from_cache.
  cbn [store set_scope_tags ev_group ev_project with_group with_project with_data].
  rewrite Hp. lazy zeta.
  unfold bind at 1.
  match goal with
  | |- context [_capture_stats ?e ?n ?w0] =>
      destruct (_capture_stats_returns e n w0) as (w1 & -> & Hstore1 & Hnow1)
  end.
  simpl in Hstore1, Hnow1.
  unfold bind at 1.
  cbn [ev_group ev_project with_group with_project with_data].
  rewrite (process_snoozes_some env g w1 snooze); [|by rewrite Hstore1].
  rewrite Hstore1, Hnow1, Hinvalid. lazy zeta.
  match goal with
  | |- context [bind ?m ?k ?w2] =>
      assert (steps store_run (bind m k)) as Hrest;
      [|specialize (Hrest w2); destruct (bind m k w2) as [w3 r3]]
  end.
  { unfold_module. steps_walk store_leaf ltac:(intros; apply store_evolves_refl). }
  simpl in Hrest. destruct Hrest as (_ & _ & _ & _ & Hgroups & Hsnoozes & _).
  simpl in Hgroups, Hsnoozes. exists w3, r3. split; [reflexivity|]. split.
  - destruct (Hsnoozes (g_id g)) as [-> | ->]; [|done]. apply lookup_delete_eq.
  - destruct (Hgroups (g_id g)) as [-> | ->]; rewrite lookup_alter_eq;
      by destruct (db_groups (store w) !! g_id g).
Qed.

End ExpiredSnooze.

Lemma expired_snooze_is_cleared_witness :
  rebound_group (store sample_world) (ev_group_id sample_event) = Some sample_group
  ∧ is_Some (db_projects (store sample_world) !! g_project_id sample_group)
  ∧ db_snoozes (store sample_world) !! g_id sample_group
    = Some {| sn_until := Some 900; sn_count := None |}
  ∧ snooze_is_valid sample_env (store sample_world) (now sample_world)
      {| sn_until := Some 900; sn_count := None |} sample_group = false
  ∧ db_snoozes (store (post_process_stages sample_env sample_event true false
                         false false None sample_world).1) !! g_id sample_group
    = None.
Proof.
  assert (rebound_group (store sample_world) (ev_group_id sample_event)
          = Some sample_group) as Hg by (vm_compute; reflexivity).
  assert (is_Some (db_projects (store sample_world) !! g_project_id sample_group))
    as Hp by (exists sample_project; vm_compute; reflexivity).
  assert (db_snoozes (store sample_world) !! g_id sample_group
          = Some {| sn_until := Some 900; sn_count := None |}) as Hs
    by (vm_compute; reflexivity).
  assert (snooze_is_valid sample_env (store sample_world) (now sample_world)
            {| sn_until := Some 900; sn_count := None |} sample_group = false)
    as Hinvalid by (vm_compute; reflexivity).
  split; [exact Hg|]. split; [exact Hp|]. split; [exact Hs|].
  split; [exact Hinvalid|].
  exact (proj1 (expired_snooze_is_cleared sample_env sample_event true false false
                  false None sample_world sample_group _ Hg Hp Hs Hinvalid)).
Defined.
